(** * Vaulto-Swap: token-list validation, client cache, stock quote route and
      token details component

    A shallow embedding of four TypeScript sources:

    - [src/lib/utils/tokenListValidation.ts]  (module [TokenListValidation])
    - the client-side cache utility            (module [Cache])
    - [src/app/api/token/[address]/stock-pct-change/route.ts]
                                               (module [StockPctChange])
    - the token details client component       (module [TokenDetailsClient])

    Conventions of the embedding.

    - JavaScript strings are Rocq [string]s read as ASCII text: one [ascii]
      per UTF-16 code unit below 128.  [toUpperCase] and [trim] are the
      ASCII restrictions of the JavaScript builtins.
    - JavaScript numbers are IEEE 754 binary64 values, i.e. the primitive
      [float] of Rocq; integer clock readings ([Date.now()]) and delays are [Z].
    - [async] functions are run to completion: an [await] is sequential
      composition, and the outside world (network, clock, upstream services)
      is an explicit oracle or an explicit outcome passed to the function.
    - A JavaScript exception is the [Throw] branch of [Result]. *)

From Stdlib Require Import PrimFloat ZArith Ascii.
From stdpp Require Import gmap strings list sorting pretty.

Set Warnings "-register-all".

Local Open Scope string_scope.
Local Open Scope list_scope.
Local Open Scope Z_scope.

(** ** JavaScript values and the builtins the sources use *)

Module Js.

(** A thrown value or promise rejection.  [JsError] is an [Error] instance
    ([TypeError] included) with its [message].  [JsThrown] is any other
    value, for which [error instanceof Error] is false, with its [message]
    property if it has one; it is never [null] or [undefined]: the
    callees of these sources reject with objects. *)
Inductive Exn : Type :=
  | JsError (message : string)
  | JsThrown (message : option string).

Inductive Result (A : Type) : Type :=
  | Ok (a : A)
  | Throw (e : Exn).
Arguments Ok {A} a.
Arguments Throw {A} e.

Definition bind {A B} (r : Result A) (k : A -> Result B) : Result B :=
  match r with
  | Ok a => k a
  | Throw e => Throw e
  end.

#[export] Instance Result_ret : MRet Result := λ A a, Ok a.
#[export] Instance Result_bind : MBind Result := λ A B k r, bind r k.

(** [try { body } catch (e) { handler(e) }] *)
Definition tryCatch {A} (body : Result A) (handler : Exn -> Result A) : Result A :=
  match body with
  | Ok a => Ok a
  | Throw e => handler e
  end.

(** A value as produced by [JSON.parse] / [response.json()]. *)
Inductive JSValue : Type :=
  | JNull
  | JBool (b : bool)
  | JNumber (x : float)
  | JString (s : string)
  | JArray (elems : list JSValue)
  | JObject (props : gmap string JSValue).

(** [typeof v] restricted to the answers the sources compare against. *)
Inductive TypeTag : Type := TObject | TBoolean | TNumber | TString | TUndefined.

Definition typeof (v : option JSValue) : TypeTag :=
  match v with
  | None => TUndefined
  | Some JNull => TObject
  | Some (JBool _) => TBoolean
  | Some (JNumber _) => TNumber
  | Some (JString _) => TString
  | Some (JArray _) => TObject
  | Some (JObject _) => TObject
  end.

Definition TypeTag_eqb (a b : TypeTag) : bool :=
  match a, b with
  | TObject, TObject | TBoolean, TBoolean | TNumber, TNumber
  | TString, TString | TUndefined, TUndefined => true
  | _, _ => false
  end.

(** Number truthiness: [0], [-0] and [NaN] are falsy. *)
Definition numberTruthy (x : float) : bool :=
  negb (PrimFloat.eqb x 0%float) && negb (PrimFloat.is_nan x).

Definition stringTruthy (s : string) : bool :=
  match s with
  | EmptyString => false
  | String _ _ => true
  end.

Definition truthy (v : JSValue) : bool :=
  match v with
  | JNull => false
  | JBool b => b
  | JNumber x => numberTruthy x
  | JString s => stringTruthy s
  | JArray _ => true
  | JObject _ => true
  end.

(** [a || b] on strings that may be [null] / [undefined] *)
Definition orString (a b : option string) : option string :=
  match a with
  | Some s => if stringTruthy s then a else b
  | None => b
  end.

Definition optionStringTruthy (a : option string) : bool :=
  match a with
  | Some s => stringTruthy s
  | None => false
  end.

(** [a || b] on numbers that may be [null] / [undefined] *)
Definition orNumber (a b : option float) : option float :=
  match a with
  | Some x => if numberTruthy x then a else b
  | None => b
  end.

(** [a || 0] *)
Definition orZero (a : option float) : float :=
  match a with
  | Some x => if numberTruthy x then x else 0%float
  | None => 0%float
  end.

(** [x > 0] *)
Definition gtZero (x : float) : bool := PrimFloat.ltb 0%float x.

(** [e.message], [None] standing for [undefined] *)
Definition messageOf (e : Exn) : option string :=
  match e with
  | JsError message => Some message
  | JsThrown message => message
  end.

(** [e.message || fallback] for a caught value [e] *)
Definition messageOr (e : Exn) (fallback : string) : string :=
  default fallback (orString (messageOf e) (Some fallback)).

(** Property read [v.p].  Reading a property of [null] throws a
    [TypeError]; primitives and JSON arrays have none of the properties
    the sources read ([name], [tokens], [chainId], ...); an object yields
    its own property or [undefined]. *)
Definition nullPropertyMessage (p : string) : string :=
  "Cannot read properties of null (reading '" +:+ p +:+ "')".

Definition getProp (v : JSValue) (p : string) : Result (option JSValue) :=
  match v with
  | JNull => Throw (JsError (nullPropertyMessage p))
  | JObject props => Ok (props !! p)
  | _ => Ok None
  end.

(** *** Strings *)

Definition isWhiteSpace (c : ascii) : bool :=
  let n := N_of_ascii c in
  ((9 <=? n) && (n <=? 13) || (n =? 32))%N.

Fixpoint trimStart (s : string) : string :=
  match s with
  | EmptyString => EmptyString
  | String c rest => if isWhiteSpace c then trimStart rest else s
  end.

Fixpoint trimEnd (s : string) : string :=
  match s with
  | EmptyString => EmptyString
  | String c rest =>
      match trimEnd rest with
      | EmptyString => if isWhiteSpace c then EmptyString else String c EmptyString
      | r => String c r
      end
  end.

Definition trim (s : string) : string := trimEnd (trimStart s).

Definition toUpperCaseChar (c : ascii) : ascii :=
  let n := N_of_ascii c in
  if ((97 <=? n) && (n <=? 122))%N then ascii_of_N (n - 32) else c.

Fixpoint toUpperCase (s : string) : string :=
  match s with
  | EmptyString => EmptyString
  | String c rest => String (toUpperCaseChar c) (toUpperCase rest)
  end.

(** [s.endsWith(suffix)] *)
Definition endsWith (s suffix : string) : bool :=
  let n := String.length s in
  let m := String.length suffix in
  (m <=? n)%nat && String.eqb (String.substring (n - m) m s) suffix.

(** [s.slice(0, -k)] *)
Definition sliceDropLast (k : nat) (s : string) : string :=
  String.substring 0 (String.length s - k) s.

(** [parts.join(sep)] *)
Definition join (sep : string) (parts : list string) : string :=
  String.concat sep parts.

(** *** The default order of [Array.prototype.sort] on strings:
    lexicographic on code units. *)
Definition codeUnitLe (a b : string) : Prop := String.leb a b = true.

#[export] Instance codeUnitLe_dec : RelDecision codeUnitLe.
Proof. intros a b. unfold codeUnitLe. apply _. Defined.

(** [arr.sort()] on an array of strings: the sorted arrangement of the
    elements (stable merge sort). *)
Definition sortStrings (l : list string) : list string :=
  merge_sort codeUnitLe l.

(** Every code unit of the string is below 128. *)
Fixpoint isAsciiString (s : string) : bool :=
  match s with
  | EmptyString => true
  | String c rest => (N_of_ascii c <? 128)%N && isAsciiString rest
  end.

Definition toLowerCaseChar (c : ascii) : ascii :=
  let n := N_of_ascii c in
  if ((65 <=? n) && (n <=? 90))%N then ascii_of_N (n + 32) else c.

Fixpoint toLowerCase (s : string) : string :=
  match s with
  | EmptyString => EmptyString
  | String c rest => String (toLowerCaseChar c) (toLowerCase rest)
  end.

End Js.

Export Js.

(** ** The client-side cache utility (1-minute TTL) *)

Module Cache.

Record CacheEntry (T : Type) : Type := mkEntry {
  data : T;
  timestamp : Z
}.
Arguments mkEntry {T} _ _.
Arguments data {T} _.
Arguments timestamp {T} _.

(** Cache TTL: 1 minute (60,000 milliseconds) *)
Definition CACHE_TTL_MS : Z := 60 * 1000.

(** [isExpired(timestamp)]; [now] is the value [Date.now()] returns. *)
Definition isExpired (now timestamp : Z) : bool :=
  bool_decide (now - timestamp > CACHE_TTL_MS).

Section Store.
Context {T : Type}.

(** [cacheStore] is the module-level [Map<string, CacheEntry<any>>];
    every function takes the current store and returns the new one. *)
Definition getCached (now : Z) (key : string) (cacheStore : gmap string (CacheEntry T))
  : option T * gmap string (CacheEntry T) :=
  match cacheStore !! key with
  | None => (None, cacheStore)
  | Some entry =>
      if isExpired now (timestamp entry)
      then (None, delete key cacheStore)
      else (Some (data entry), cacheStore)
  end.

Definition setCached (now : Z) (key : string) (d : T)
    (cacheStore : gmap string (CacheEntry T)) : gmap string (CacheEntry T) :=
  <[key := mkEntry d now]> cacheStore.

Definition clearCached (key : string) (cacheStore : gmap string (CacheEntry T))
  : gmap string (CacheEntry T) :=
  delete key cacheStore.

(** [clearExpiredEntries] calls [isExpired], hence [Date.now()], once
    per entry; [clock key] is the reading taken when the entry stored
    under [key] is examined. *)
Definition clearExpiredEntries (clock : string -> Z)
    (cacheStore : gmap string (CacheEntry T)) : gmap string (CacheEntry T) :=
  filter (λ kv, isExpired (clock kv.1) (timestamp kv.2) = false) cacheStore.

Definition clearAllCache (cacheStore : gmap string (CacheEntry T))
  : gmap string (CacheEntry T) := ∅.

(** Calls a client may make on the cache between two observations. *)
Inductive Call : Type :=
  | CallGet (now : Z) (key : string)
  | CallSet (now : Z) (key : string) (d : T)
  | CallClear (key : string)
  | CallClearExpired (clock : string -> Z)
  | CallClearAll.

Definition runCall (c : Call) (cacheStore : gmap string (CacheEntry T))
  : gmap string (CacheEntry T) :=
  match c with
  | CallGet now key => (getCached now key cacheStore).2
  | CallSet now key d => setCached now key d cacheStore
  | CallClear key => clearCached key cacheStore
  | CallClearExpired clock => clearExpiredEntries clock cacheStore
  | CallClearAll => clearAllCache cacheStore
  end.

Definition runCalls (cs : list Call) (cacheStore : gmap string (CacheEntry T))
  : gmap string (CacheEntry T) :=
  foldl (λ st c, runCall c st) cacheStore cs.

(** The call neither sets nor clears [k]. *)
Definition leavesKey (k : string) (c : Call) : Prop :=
  match c with
  | CallGet _ _ => True
  | CallSet _ key _ => key ≠ k
  | CallClear key => key ≠ k
  | CallClearExpired _ => True
  | CallClearAll => False
  end.

(** Every clock reading the call takes is at most [t]. *)
Definition readsClockBy (t : Z) (c : Call) : Prop :=
  match c with
  | CallGet now _ => now ≤ t
  | CallSet now _ _ => now ≤ t
  | CallClear _ => True
  | CallClearExpired clock => ∀ key, clock key ≤ t
  | CallClearAll => True
  end.
End Store.

(** *** Cache keys *)

(** Arrays live in a heap so that in-place mutation is observable:
    [addresses] is a reference, [[...addresses]] allocates a copy and
    [sort()] overwrites the array it is called on. *)
Definition Ref := positive.

Definition spread (a : Ref) (heap : gmap Ref (list string))
  : option (Ref * gmap Ref (list string)) :=
  match heap !! a with
  | None => None
  | Some elems =>
      let r := fresh (dom heap) in
      Some (r, <[r := elems]> heap)
  end.

Definition sortInPlace (a : Ref) (heap : gmap Ref (list string))
  : option (Ref * gmap Ref (list string)) :=
  match heap !! a with
  | None => None
  | Some elems => Some (a, <[a := sortStrings elems]> heap)
  end.

Definition joinArray (sep : string) (a : Ref) (heap : gmap Ref (list string))
  : option string :=
  join sep <$> heap !! a.

(** [getSolanaTokenDataCacheKey(addresses)] *)
Definition getSolanaTokenDataCacheKey (addresses : Ref) (heap : gmap Ref (list string))
  : option (string * gmap Ref (list string)) :=
  match spread addresses heap with
  | None => None
  | Some (copy, heap1) =>
      match sortInPlace copy heap1 with
      | None => None
      | Some (sortedAddresses, heap2) =>
          match joinArray "," sortedAddresses heap2 with
          | None => None
          | Some joined => Some ("solana-token-data-" +:+ joined, heap2)
          end
      end
  end.

(** [getUniswapLiquidityCacheKey(chainId, query)].  Chain ids are
    non-negative integers, which a template literal prints in decimal. *)
Definition getUniswapLiquidityCacheKey (chainId : nat) (query : string) : string :=
  let normalizedQuery := toLowerCase (trim query) in
  "uniswap-liquidity-" +:+ pretty chainId +:+ "-" +:+ normalizedQuery.

(** [getTokenPriceCacheKey(chainId, address)] *)
Definition getTokenPriceCacheKey (chainId : nat) (address : string) : string :=
  let normalizedAddress := toLowerCase address in
  "token-price-" +:+ pretty chainId +:+ "-" +:+ normalizedAddress.

End Cache.

(** ** [src/lib/utils/tokenListValidation.ts] *)

Module TokenListValidation.

Record TokenListValidationResult : Type := mkResult {
  url : string;
  isValid : bool;
  error : option string;
  tokenCount : option nat
}.

Definition isTypeof (tag : TypeTag) (v : option JSValue) : bool :=
  TypeTag_eqb (typeof v) tag.

(** The condition of the [if] inside the token loop: true when the token
    lacks a field or has it with the wrong type.  The five reads happen
    left to right and [||] stops at the first true disjunct. *)
Definition tokenIsMalformed (token : JSValue) : Result bool :=
  chainId ← getProp token "chainId";
  if negb (isTypeof TNumber chainId) then Ok true else
  address ← getProp token "address";
  if negb (isTypeof TString address) then Ok true else
  symbol ← getProp token "symbol";
  if negb (isTypeof TString symbol) then Ok true else
  name ← getProp token "name";
  if negb (isTypeof TString name) then Ok true else
  decimals ← getProp token "decimals";
  Ok (negb (isTypeof TNumber decimals)).

(** [for (const token of data.tokens) { if (...) return false; } return true;] *)
Fixpoint validateTokens (tokens : list JSValue) : Result bool :=
  match tokens with
  | [] => Ok true
  | token :: rest =>
      malformed ← tokenIsMalformed token;
      if (malformed : bool) then Ok false else validateTokens rest
  end.

(** [validateTokenList(data)].  [Ok true] accepts, [Ok false] rejects, and
    a [Throw] is the [TypeError] raised when an element of [tokens] is
    [null]. *)
Definition validateTokenList (data : JSValue) : Result bool :=
  if negb (truthy data) || negb (isTypeof TObject (Some data)) then Ok false else
  name ← getProp data "name";
  match name with
  | Some (JString s) =>
      if negb (stringTruthy (trim s)) then Ok false else
      tokens ← getProp data "tokens";
      match tokens with
      | Some (JArray elems) => validateTokens elems
      | _ => Ok false
      end
  | _ => Ok false
  end.

(** [data.tokens.length] *)
Definition tokensLength (data : JSValue) : option nat :=
  match data with
  | JObject props =>
      match props !! "tokens" with
      | Some (JArray elems) => Some (length elems)
      | _ => None
      end
  | _ => None
  end.

(** What [fetch] resolves to.  [json] is the outcome of [response.json()]. *)
Record Response : Type := mkResponse {
  ok : bool;
  status : nat;
  statusText : string;
  json : Result JSValue
}.

(** Observable actions of the module, in the order they happen. *)
Inductive Event : Type :=
  | EvFetch (url : string)
  | EvSleep (ms : Z).

Definition isFetch (e : Event) : bool :=
  match e with EvFetch _ => true | EvSleep _ => false end.

Definition fetchCount (tr : list Event) : nat := length (filter (λ e, isFetch e = true) tr).

Definition sleeps (tr : list Event) : list Z :=
  omap (λ e, match e with EvSleep ms => Some ms | EvFetch _ => None end) tr.

Definition delays : list Z := [1000; 2000; 4000].

(** [delays[attempt] || delays[delays.length - 1]] *)
Definition backoffDelay (attempt : nat) : Z :=
  let lastDelay := default 0 (delays !! (length delays - 1)%nat) in
  match delays !! attempt with
  | Some d => if d =? 0 then lastDelay else d
  | None => lastDelay
  end.

(** [error instanceof Error ? error.message : 'Unknown error'] *)
Definition errorMessageOf (e : Exn) : string :=
  match e with
  | JsError message => message
  | JsThrown _ => "Unknown error"
  end.

Section WithNetwork.

(** The network: what [fetch(url)] settles to (a rejection covers the
    abort raised by the 10 s timeout), given everything the module has
    done so far. *)
Variable network : list Event -> string -> Result Response.

Definition fetchTokenListWithTimeout (url : string) (timeoutMs : Z) (tr : list Event)
  : Result Response * list Event :=
  (tryCatch (network tr url) (λ e, Throw e), tr ++ [EvFetch url]).

(** The [try] block of one loop iteration: the token count on success. *)
Definition attemptOnce (url : string) (tr : list Event) : Result (option nat) * list Event :=
  let '(fetched, tr1) := fetchTokenListWithTimeout url 10000 tr in
  (response ← fetched;
   if negb (ok response)
   then Throw (JsError ("HTTP " +:+ pretty (status response) +:+ ": " +:+ statusText response))
   else
     data ← json response;
     valid ← validateTokenList data;
     if negb (valid : bool) then Throw (JsError "Invalid token list format")
     else Ok (tokensLength data),
   tr1).

(** The [for] loop over [attempt = 0 .. maxRetries]; [attempts] is what is
    left of that range. *)
Fixpoint retryLoop (url : string) (maxRetries : nat) (attempts : list nat)
    (tr : list Event) : TokenListValidationResult * list Event :=
  match attempts with
  | [] => (mkResult url false (Some "Max retries exceeded") None, tr)
  | attempt :: rest =>
      match attemptOnce url tr with
      | (Ok count, tr1) => (mkResult url true None count, tr1)
      | (Throw e, tr1) =>
          let errorMessage := errorMessageOf e in
          if (attempt =? maxRetries)%nat
          then (mkResult url false (Some errorMessage) None, tr1)
          else retryLoop url maxRetries rest (tr1 ++ [EvSleep (backoffDelay attempt)])
      end
  end.

Definition fetchTokenListWithRetry (url : string) (maxRetries : nat) (tr : list Event)
  : TokenListValidationResult * list Event :=
  retryLoop url maxRetries (seq 0 (S maxRetries)) tr.

Definition validateTokenListUrl (url : string) (tr : list Event)
  : TokenListValidationResult * list Event :=
  fetchTokenListWithRetry url 3 tr.

(** Console output is not part of the model. *)
Definition getValidatedTokenListUrls (primaryUrl fallbackUrl : string) (tr : list Event)
  : list string * list Event :=
  let '(primaryResult, tr1) := validateTokenListUrl primaryUrl tr in
  if isValid primaryResult then ([primaryUrl], tr1) else
  let '(fallbackResult, tr2) := validateTokenListUrl fallbackUrl tr1 in
  if isValid fallbackResult then ([fallbackUrl], tr2) else
  ([fallbackUrl], tr2).

Definition vaultoPrimary : string := "https://vaulto.dev/api/token-list/".
Definition vaultoFallback : string := "/token-list.json".
Definition uniswapList : string := "https://ipfs.io/ipns/tokens.uniswap.org".

Definition getCowSwapTokenLists (tr : list Event) : list string * list Event :=
  let validatedUrls : list string := [] in
  let '(vaultoPrimaryResult, tr1) := validateTokenListUrl vaultoPrimary tr in
  let '(validatedUrls, tr2) :=
    if isValid vaultoPrimaryResult
    then (validatedUrls ++ [vaultoPrimary], tr1)
    else
      let '(vaultoFallbackResult, tr2) := validateTokenListUrl vaultoFallback tr1 in
      if isValid vaultoFallbackResult
      then (validatedUrls ++ [vaultoFallback], tr2)
      else (validatedUrls ++ [vaultoFallback], tr2) in
  let '(uniswapResult, tr3) := validateTokenListUrl uniswapList tr2 in
  let validatedUrls :=
    if isValid uniswapResult then validatedUrls ++ [uniswapList] else validatedUrls in
  (validatedUrls, tr3).

End WithNetwork.

(** The events of [k] failed attempts, numbered from [first], each
    followed by its backoff sleep. *)
Definition failedAttempts (url : string) (first k : nat) : list Event :=
  flat_map (λ attempt, [EvFetch url; EvSleep (backoffDelay attempt)]) (seq first k).

(** The fetch-and-validate step for [url] fails whenever it is tried. *)
Definition alwaysFails (network : list Event -> string -> Result Response) (url : string) : Prop :=
  ∀ tr, ∃ e, (attemptOnce network url tr).1 = Throw e.

(** *** The acceptance condition as the specification words it *)

Definition isNumber (v : JSValue) : Prop := ∃ x, v = JNumber x.
Definition isString (v : JSValue) : Prop := ∃ s, v = JString s.

(** [obj] is an object that has [field], and the field's value satisfies [P]. *)
Definition hasField (P : JSValue -> Prop) (field : string) (obj : JSValue) : Prop :=
  ∃ props fv, obj = JObject props ∧ props !! field = Some fv ∧ P fv.

Definition wellFormedToken (token : JSValue) : Prop :=
  hasField isNumber "chainId" token ∧
  hasField isNumber "decimals" token ∧
  hasField isString "address" token ∧
  hasField isString "symbol" token ∧
  hasField isString "name" token.

(** An object whose [name] is a string that is non-empty after trimming,
    whose [tokens] is an array, every element of which is well formed. *)
Definition wellFormedTokenList (data : JSValue) : Prop :=
  ∃ props name elems,
    data = JObject props ∧
    props !! "name" = Some (JString name) ∧ trim name ≠ "" ∧
    props !! "tokens" = Some (JArray elems) ∧
    Forall wellFormedToken elems.

End TokenListValidation.

(** ** [src/app/api/token/[address]/stock-pct-change/route.ts] *)

Module StockPctChange.

(** What [NextResponse.json(body, init)] is built from: the body object as
    handed to it (before serialisation), the status ([200] when [init]
    gives none) and the headers of [init]. *)
Record HttpResponse : Type := mkHttpResponse {
  status : nat;
  body : gmap string JSValue;
  headers : list (string * string)
}.

Definition jsonResponse (body : gmap string JSValue) (status : option nat)
    (headers : list (string * string)) : HttpResponse :=
  mkHttpResponse (default 200%nat status) body headers.

(** The two fields of a Yahoo quote that the route reads. *)
Record Quote : Type := mkQuote {
  regularMarketChangePercent : option float;
  changePercent : option float
}.

Section Route.

(** The helpers of [@/lib/utils/token] and the upstream quote service are
    not part of this file; the route is parameterised by what they
    return.  [getTokenMetadata] yields the [token] of the metadata found. *)
Context {Token : Type}.
Variable getTokenMetadata : string -> Result (option Token).
Variable isTokenizedStock : Token -> Result bool.
Variable getStockTicker : Token -> Result (option string).
(** [await import('yahoo-finance2')]: the module's [quote] function. *)
Variable importYahooFinance : Result (string -> Result (option Quote)).

Definition errorBody (message : string) : gmap string JSValue :=
  {[ "error" := JString message ]}.

Definition GET (address : string) : Result HttpResponse :=
  tryCatch
    (if negb (stringTruthy address)
     then Ok (jsonResponse (errorBody "Token address is required") (Some 400%nat) [])
     else
       tokenInfo ← getTokenMetadata address;
       match tokenInfo with
       | None => Ok (jsonResponse (errorBody "Token not found") (Some 404%nat) [])
       | Some token =>
           isStock ← isTokenizedStock token;
           if negb (isStock : bool)
           then Ok (jsonResponse (errorBody "Token is not a tokenized stock") (Some 400%nat) [])
           else
             tickerOpt ← getStockTicker token;
             match tickerOpt with
             | None | Some EmptyString =>
                 Ok (jsonResponse (errorBody "Stock ticker not found for tokenized stock")
                       (Some 400%nat) [])
             | Some ticker =>
                 match importYahooFinance with
                 | Throw importError =>
                     Ok (jsonResponse (errorBody "Stock data service unavailable")
                           (Some 503%nat) [])
                 | Ok yahooFinance =>
                     tryCatch
                       (quote ← yahooFinance ticker;
                        match quote with
                        | None =>
                            Ok (jsonResponse
                                  (errorBody ("Stock data not found for ticker: " +:+ ticker))
                                  (Some 404%nat) [])
                        | Some q =>
                            let priceChangePercent :=
                              orZero (orNumber (regularMarketChangePercent q) (changePercent q)) in
                            let response : gmap string JSValue :=
                              {[ "ticker" := JString ticker;
                                 "priceChangePercent" := JNumber priceChangePercent ]} in
                            Ok (jsonResponse response None
                                  [("Cache-Control",
                                    "public, s-maxage=60, stale-while-revalidate=120")])
                        end)
                       (λ yahooError,
                          Ok (jsonResponse
                                (errorBody ("Failed to fetch stock data: " +:+
                                            messageOr yahooError "Unknown error"))
                                (Some 500%nat) []))
                 end
             end
       end)
    (λ error,
       let details : gmap string JSValue :=
         match messageOf error with
         | Some m => {[ "details" := JString m ]}
         | None => ∅
         end in
       Ok (jsonResponse (<["error" := JString "Internal server error"]> details)
             (Some 500%nat) [])).

End Route.

(** *** Vocabulary of the properties *)

(** The body of a success: the two fields and no [error]. *)
Definition successBody (body : gmap string JSValue) : Prop :=
  (∃ priceChangePercent, body !! "priceChangePercent" = Some (JNumber priceChangePercent) ∧
                         PrimFloat.is_nan priceChangePercent = false) ∧
  (∃ ticker, body !! "ticker" = Some (JString ticker)) ∧
  body !! "error" = None.

(** The body of a failure: an [error] string. *)
Definition failureBody (body : gmap string JSValue) : Prop :=
  ∃ message, body !! "error" = Some (JString message).

End StockPctChange.

(** ** The token details client component *)

Module TokenDetailsClient.

(** The field of [CoinGeckoPriceData] the logic reads; the others are
    only displayed. *)
Record CoinGeckoPriceData : Type := mkCoinGecko {
  cgSymbol : string
}.

Record Token : Type := mkToken {
  tokenConfigSymbol : string
}.

Record TokenInfo : Type := mkTokenInfo {
  infoToken : Token;
  infoChainId : float
}.

Record Props : Type := mkProps {
  address : string;
  chainId : option float
}.

(** [searchParams?.get(...)] for the parameters the logic depends on
    ([name] and [priceChange24h] are only displayed); [None] is [null]. *)
Record SearchParams : Type := mkSearchParams {
  tvlParam : option string;
  volumeParam : option string;
  symbolParam : option string;
  chainIdParam : option string
}.

Record State : Type := mkState {
  coingeckoData : option CoinGeckoPriceData;
  stockData : option JSValue;
  tvlUSD : option float;
  volumeUSD : option float;
  isLoading : bool;
  error : option string
}.

(** [useState] initial values *)
Definition initialState : State :=
  mkState None None None None true None.

Inductive Effect : Type :=
  | ConsoleError (label : string)
  | ConsoleWarn (label : string)
  | ToastError (message : string)
  | StateUpdate (after : State).

(** The component instance: its state and what it has done so far. *)
Record UI : Type := mkUI {
  state : State;
  effects : list Effect
}.

(** Computations that read and update the component and may throw. *)
Definition M (A : Type) : Type := UI -> Result A * UI.

#[export] Instance M_ret : MRet M := λ A a ui, (Ok a, ui).
#[export] Instance M_bind : MBind M := λ A B k m ui,
  match m ui with
  | (Ok a, ui1) => k a ui1
  | (Throw e, ui1) => (Throw e, ui1)
  end.

(** [await p] for a promise that settles to [r] *)
Definition await {A} (r : Result A) : M A := λ ui, (r, ui).

Definition tryCatchM {A} (body : M A) (handler : Exn -> M A) : M A := λ ui,
  match body ui with
  | (Ok a, ui1) => (Ok a, ui1)
  | (Throw e, ui1) => handler e ui1
  end.

(** [try { body } finally { cleanup }] *)
Definition tryFinallyM {A} (body : M A) (cleanup : M unit) : M A := λ ui,
  let '(r, ui1) := body ui in
  match cleanup ui1 with
  | (Ok _, ui2) => (r, ui2)
  | (Throw e, ui2) => (Throw e, ui2)
  end.

Definition emit (e : Effect) : M unit := λ ui,
  (Ok (), mkUI (state ui) (effects ui ++ [e])).

Definition setState (f : State -> State) : M unit := λ ui,
  let s := f (state ui) in
  (Ok (), mkUI s (effects ui ++ [StateUpdate s])).

Definition setCoingeckoData (v : option CoinGeckoPriceData) : M unit :=
  setState (λ s, mkState v (stockData s) (tvlUSD s) (volumeUSD s) (isLoading s) (error s)).
Definition setStockData (v : option JSValue) : M unit :=
  setState (λ s, mkState (coingeckoData s) v (tvlUSD s) (volumeUSD s) (isLoading s) (error s)).
Definition setTvlUSD (v : option float) : M unit :=
  setState (λ s, mkState (coingeckoData s) (stockData s) v (volumeUSD s) (isLoading s) (error s)).
Definition setVolumeUSD (v : option float) : M unit :=
  setState (λ s, mkState (coingeckoData s) (stockData s) (tvlUSD s) v (isLoading s) (error s)).
Definition setIsLoading (v : bool) : M unit :=
  setState (λ s, mkState (coingeckoData s) (stockData s) (tvlUSD s) (volumeUSD s) v (error s)).
Definition setError (v : option string) : M unit :=
  setState (λ s, mkState (coingeckoData s) (stockData s) (tvlUSD s) (volumeUSD s) (isLoading s) v).

(** [if (c) { body }] *)
Definition when (c : bool) (body : M unit) : M unit :=
  if c then body else mret ().

(** Responses of the two HTTP calls the component makes itself. *)
Record StockResponse : Type := mkStockResponse {
  stockOk : bool;
  stockJson : Result JSValue;
  stockText : Result string
}.

Record SolanaTokenData : Type := mkSolanaTokenData {
  solTvlUSD : option float;
  solVolumeUSD : option float
}.

(** The body of the Solana token-data response: [tokens] may be missing. *)
Record SolanaData : Type := mkSolanaData {
  tokens : option (list SolanaTokenData)
}.

Record SolanaResponse : Type := mkSolanaResponse {
  solanaOk : bool;
  solanaJson : Result SolanaData
}.

Record Pool : Type := mkPool {
  poolTvlUSD : option float;
  poolVolumeUSD : option float
}.

Record PoolsResult : Type := mkPoolsResult {
  pools : option (list Pool)
}.

(** Everything outside the component that [fetchData] calls. *)
Record Services : Type := mkServices {
  fetchTokenPriceByAddress : float -> string -> Result (option CoinGeckoPriceData);
  fetchTokenPriceBySymbol : string -> Result (option CoinGeckoPriceData);
  fetchStockData : string -> Result StockResponse;
  fetchSolanaTokenData : string -> Result SolanaResponse;
  getPoolsForToken : float -> string -> nat -> Result PoolsResult
}.

(** The values one render computes from props, URL and configuration,
    and which the effects of that render close over. *)
Record Render : Type := mkRender {
  rAddress : string;
  searchResultSymbol : option string;
  token : option Token;
  tokenChainId : float;
  isStock : bool;
  ticker : option string;
  initialTvl : option float;
  initialVolume : option float;
  tokenSymbol : string;
  rState : State
}.

Section Component.

(** JavaScript builtins and the helpers of [@/lib/utils/token]. *)
Variable parseFloat : string -> float.
Variable parseInt10 : string -> float.
Variable getTokenMetadata : string -> option TokenInfo.
Variable isTokenizedStock : Token -> bool.
Variable getStockTicker : Token -> option string.

(** The [tvlParam ? (() => { ... })() : null] expressions *)
Definition parsePositive (param : option string) : option float :=
  match param with
  | Some p =>
      if stringTruthy p then
        let val := parseFloat p in
        if negb (PrimFloat.is_nan val) && gtZero val then Some val else None
      else None
  | None => None
  end.

(** The body of the component function up to the effects. *)
Definition render (props : Props) (searchParams : SearchParams) (s : State) : Render :=
  let searchResultSymbol := orString (symbolParam searchParams) None in
  let searchResultChainId :=
    match chainIdParam searchParams with
    | Some p => if stringTruthy p then Some (parseInt10 p) else None
    | None => None
    end in
  let tokenInfo := getTokenMetadata (address props) in
  let token := infoToken <$> tokenInfo in
  let tokenChainId :=
    default 1%float
      (orNumber (orNumber (orNumber searchResultChainId (chainId props))
                          (infoChainId <$> tokenInfo))
                (Some 1%float)) in
  let isStock := match token with Some t => isTokenizedStock t | None => false end in
  let ticker := match token with Some t => getStockTicker t | None => None end in
  let initialTvl := parsePositive (tvlParam searchParams) in
  let initialVolume := parsePositive (volumeParam searchParams) in
  let tokenSymbol :=
    default "TOKEN"
      (orString (orString searchResultSymbol (tokenConfigSymbol <$> token)) (Some "TOKEN")) in
  mkRender (address props) searchResultSymbol token tokenChainId isStock ticker
    initialTvl initialVolume tokenSymbol s.

End Component.

(** [searchResultSymbol || coingeckoData?.symbol || tokenSymbol], with the
    [coingeckoData] of the render the expression is evaluated in. *)
Definition effectiveSymbol (r : Render) : string :=
  default (tokenSymbol r)
    (orString (orString (searchResultSymbol r) (cgSymbol <$> coingeckoData (rState r)))
              (Some (tokenSymbol r))).

(** [effectiveSymbol.toUpperCase().endsWith('ON') && effectiveSymbol.length > 2] *)
Definition isOndoSymbol (sym : string) : bool :=
  endsWith (toUpperCase sym) "ON" && (2 <? String.length sym)%nat.

(** [isOndoToken ? effectiveSymbol.slice(0, -2).toUpperCase() : null] *)
Definition ondoTickerOf (sym : string) : option string :=
  if isOndoSymbol sym then Some (toUpperCase (sliceDropLast 2 sym)) else None.

(** The effect that copies the URL values into the state. *)
Definition applyInitialValues (r : Render) : M unit :=
  when (bool_decide (is_Some (initialTvl r))) (setTvlUSD (initialTvl r));;
  when (bool_decide (is_Some (initialVolume r))) (setVolumeUSD (initialVolume r)).

(** The loop over [alternativeChains] *)
Fixpoint tryAlternativeChains (svc : Services) (r : Render) (chains : list float)
    (priceData : option CoinGeckoPriceData) : M (option CoinGeckoPriceData) :=
  match chains with
  | [] => mret priceData
  | altChainId :: rest =>
      if negb (PrimFloat.eqb altChainId (tokenChainId r)) then
        found ← await (fetchTokenPriceByAddress svc altChainId (rAddress r));
        match found with
        | Some _ => mret found
        | None => tryAlternativeChains svc r rest found
        end
      else tryAlternativeChains svc r rest priceData
  end.

Definition alternativeChains : list float :=
  [1%float; 42161%float; 10%float; 8453%float; 137%float].

(** The primary price path: by address, then by symbol, then on the
    alternative chains. *)
Definition fetchPriceData (svc : Services) (r : Render) : M (option CoinGeckoPriceData) :=
  priceData ←
    (if stringTruthy (rAddress r)
     then await (fetchTokenPriceByAddress svc (tokenChainId r) (rAddress r))
     else mret None);
  priceData ←
    (match priceData, token r with
     | None, Some t =>
         if stringTruthy (tokenConfigSymbol t)
         then await (fetchTokenPriceBySymbol svc (tokenConfigSymbol t))
         else mret priceData
     | _, _ => mret priceData
     end);
  match priceData with
  | None =>
      if stringTruthy (rAddress r)
      then tryAlternativeChains svc r alternativeChains priceData
      else mret priceData
  | Some _ => mret priceData
  end.

(** The optional stock-data fetch: the [try] block, then the whole
    [try]/[catch]. *)
Definition stockDataUrl (r : Render) : string :=
  "/api/token/" +:+ rAddress r +:+ "/stock-data".

Definition fetchStockBody (svc : Services) (r : Render) : M unit :=
  stockResponse ← await (fetchStockData svc (stockDataUrl r));
  if stockOk stockResponse then
    stock ← await (stockJson stockResponse);
    setStockData (match stock with JNull => None | _ => Some stock end)
  else
    text ← await (stockText stockResponse);
    emit (ConsoleWarn "Failed to fetch stock data:").

Definition fetchStock (svc : Services) (r : Render) : M unit :=
  tryCatchM (fetchStockBody svc r)
    (λ stockError, emit (ConsoleError "Error fetching stock data:")).

Definition sumTvl (l : list Pool) : float :=
  foldl (λ sum pool, PrimFloat.add sum (orZero (poolTvlUSD pool))) 0%float l.

Definition sumVolume (l : list Pool) : float :=
  foldl (λ sum pool, PrimFloat.add sum (orZero (poolVolumeUSD pool))) 0%float l.

(** [needs && v !== undefined && v > 0] *)
Definition shouldStore (needs : bool) (v : option float) : bool :=
  needs && match v with Some x => gtZero x | None => false end.

Definition needsTvl (r : Render) : bool := bool_decide (initialTvl r = None).
Definition needsVolume (r : Render) : bool := bool_decide (initialVolume r = None).

(** The optional TVL / volume fetch: the [try] block, then the [if] with
    the whole [try]/[catch]. *)
Definition fetchTvlVolumeBody (svc : Services) (r : Render) : M unit :=
  if PrimFloat.eqb (tokenChainId r) 101%float then
    solanaResponse ← await (fetchSolanaTokenData svc (rAddress r));
    when (solanaOk solanaResponse)
      (solanaData ← await (solanaJson solanaResponse);
       match tokens solanaData ≫= head with
       | Some tokenData =>
           when (shouldStore (needsTvl r) (solTvlUSD tokenData))
             (setTvlUSD (solTvlUSD tokenData));;
           when (shouldStore (needsVolume r) (solVolumeUSD tokenData))
             (setVolumeUSD (solVolumeUSD tokenData))
       | None => mret ()
       end)
  else
    poolsResult ← await (getPoolsForToken svc (tokenChainId r) (rAddress r) 100);
    match pools poolsResult with
    | Some ((_ :: _) as poolList) =>
        let totalTVL := sumTvl poolList in
        let totalVolume := sumVolume poolList in
        when (needsTvl r && gtZero totalTVL) (setTvlUSD (Some totalTVL));;
        when (needsVolume r && gtZero totalVolume) (setVolumeUSD (Some totalVolume))
    | _ => mret ()
    end.

Definition fetchTvlVolume (svc : Services) (r : Render) : M unit :=
  when (needsTvl r || needsVolume r)
    (tryCatchM (fetchTvlVolumeBody svc r)
       (λ tvlVolumeError, emit (ConsoleError "Error fetching TVL/volume data:"))).

(** The condition under which the stock data is fetched at all. *)
Definition wantsStockData (r : Render) : bool :=
  (isStock r && optionStringTruthy (ticker r)) ||
  (isOndoSymbol (effectiveSymbol r) && optionStringTruthy (ondoTickerOf (effectiveSymbol r))).

(** [fetchData], as run by the effect of render [r]. *)
Definition fetchData (svc : Services) (r : Render) : M unit :=
  setIsLoading true;;
  setError None;;
  tryFinallyM
    (tryCatchM
       (priceData ← fetchPriceData svc r;
        setCoingeckoData priceData;;
        when (wantsStockData r) (fetchStock svc r);;
        fetchTvlVolume svc r)
       (λ err,
          emit (ConsoleError "Error fetching token data:");;
          setError (Some (messageOr err "Failed to load token data"));;
          emit (ToastError "Failed to load token data")))
    (setIsLoading false).

(** *** What the component returns *)

Inductive ChartType : Type := stock | crypto.

Record Details : Type := mkDetails {
  chartSymbol : string;
  chartType : ChartType;
  tokenizedStockBadge : bool;
  volumeShown : option float;
  tvlShown : option float
}.

Inductive View : Type :=
  | LoadingSkeleton
  | TokenDetails (d : Details).

Definition ondoTickerMappings : gmap string string := {[ "SPYON" := "SPY" ]}.

(** [v !== null && v > 0 && (...)] *)
Definition shownIfPositive (v : option float) : option float :=
  match v with
  | Some x => if gtZero x then Some x else None
  | None => None
  end.

(** The chart symbol and type chosen by the [if] / [else if] / [else] chain *)
Definition chartFor (r : Render) : string * ChartType :=
  let effectiveSymbol := effectiveSymbol r in
  let isOndoToken := isOndoSymbol effectiveSymbol in
  let ondoTicker := ondoTickerOf effectiveSymbol in
  if isOndoToken && optionStringTruthy ondoTicker then
    let upperSymbol := toUpperCase effectiveSymbol in
    (default "" (orString (ondoTickerMappings !! upperSymbol) ondoTicker), stock)
  else if isStock r && optionStringTruthy (ticker r) then
    ("NASDAQ:" +:+ default "" (ticker r), stock)
  else
    (effectiveSymbol, crypto).

Definition view (r : Render) : View :=
  if isLoading (rState r) then LoadingSkeleton else
  let isOndoToken := isOndoSymbol (effectiveSymbol r) in
  let '(chartSymbol, chartType) := chartFor r in
  TokenDetails
    (mkDetails chartSymbol chartType (isStock r || isOndoToken)
       (shownIfPositive (volumeUSD (rState r)))
       (shownIfPositive (tvlUSD (rState r)))).

(** *** Vocabulary of the properties *)

(** How the primary price path ends; it touches neither state nor log. *)
Definition priceOutcome (svc : Services) (r : Render) : Result (option CoinGeckoPriceData) :=
  (fetchPriceData svc r (mkUI initialState [])).1.






Definition toasts (l : list Effect) : list string :=
  omap (λ e, match e with ToastError m => Some m | _ => None end) l.


(** [m] relates every component it starts from to the one it leaves. *)
Definition respects (R : UI -> UI -> Prop) {A} (m : M A) : Prop :=
  ∀ ui, R ui (m ui).2.

Definition neverThrows {A} (m : M A) : Prop :=
  ∀ ui, ∃ a, (m ui).1 = Ok a.

(** [m] only computes a result: same outcome from every component, which
    it leaves as it was. *)
Definition pureM {A} (m : M A) : Prop :=
  ∃ x, ∀ ui, m ui = (x, ui).

(** [after] has the log of [before] extended by entries that are not
    toasts, and the same error state. *)
Definition quietly (before after : UI) : Prop :=
  ∃ new, effects after = effects before ++ new ∧ toasts new = [] ∧
         error (state after) = error (state before).

(** [null], or a number [x] with [x > 0] (so not [NaN], zero or negative). *)
Definition nullOrPositive (v : option float) : Prop :=
  match v with
  | None => True
  | Some x => gtZero x = true
  end.

Definition stateInvariant (s : State) : Prop :=
  nullOrPositive (tvlUSD s) ∧ nullOrPositive (volumeUSD s).

(** The invariant holds now and held after every state update so far. *)
Definition uiInvariant (ui : UI) : Prop :=
  stateInvariant (state ui) ∧
  Forall (λ e, match e with StateUpdate s => stateInvariant s | _ => True end) (effects ui).

Definition keepsInvariant (before after : UI) : Prop :=
  uiInvariant before -> uiInvariant after.

(** The component instances that can arise: the mount, then any number of
    runs of the two effects, each closing over some render (of any props,
    URL parameters and, because closures may be stale, any state). *)
Inductive reachable (parseFloat parseInt10 : string -> float)
    (getTokenMetadata : string -> option TokenInfo)
    (isTokenizedStock : Token -> bool) (getStockTicker : Token -> option string)
    : UI -> Prop :=
  | reach_mount :
      reachable parseFloat parseInt10 getTokenMetadata isTokenizedStock getStockTicker
        (mkUI initialState [])
  | reach_initial_values ui props searchParams s :
      reachable parseFloat parseInt10 getTokenMetadata isTokenizedStock getStockTicker ui ->
      reachable parseFloat parseInt10 getTokenMetadata isTokenizedStock getStockTicker
        (applyInitialValues
           (render parseFloat parseInt10 getTokenMetadata isTokenizedStock getStockTicker
              props searchParams s) ui).2
  | reach_fetch_data ui svc props searchParams s :
      reachable parseFloat parseInt10 getTokenMetadata isTokenizedStock getStockTicker ui ->
      reachable parseFloat parseInt10 getTokenMetadata isTokenizedStock getStockTicker
        (fetchData svc
           (render parseFloat parseInt10 getTokenMetadata isTokenizedStock getStockTicker
              props searchParams s) ui).2.

End TokenDetailsClient.

(** * Properties *)

(** ** The code-unit order is a total order *)

Module JsFacts.

Lemma string_leb_trans (a b c : string) :
  String.leb a b = true -> String.leb b c = true -> String.leb a c = true.
Proof.
  unfold String.leb. revert b c.
  induction a as [|x a IH]; intros [|y b] [|z c]; simpl; try done.
  unfold Ascii.compare.
  destruct (N.compare_spec (N_of_ascii x) (N_of_ascii y)) as [Hxy|Hxy|Hxy];
    destruct (N.compare_spec (N_of_ascii y) (N_of_ascii z)) as [Hyz|Hyz|Hyz];
    destruct (N.compare_spec (N_of_ascii x) (N_of_ascii z)) as [Hxz|Hxz|Hxz];
    try done; try lia.
  apply IH.
Qed.

#[export] Instance codeUnitLe_trans : Transitive codeUnitLe.
Proof. intros a b c. apply string_leb_trans. Qed.

#[export] Instance codeUnitLe_total : Total codeUnitLe.
Proof. intros a b. apply String.leb_total. Qed.

#[export] Instance codeUnitLe_antisym : AntiSymm (=) codeUnitLe.
Proof. intros a b. apply String.leb_antisym. Qed.

Example trim_examples :
  trim "  Vaulto List  " = "Vaulto List" ∧ trim "   " = "" ∧ trim "" = "".
Proof. repeat split. Qed.

Example endsWith_examples :
  endsWith (toUpperCase "NVDAon") "ON" = true ∧ endsWith "ON" "ON" = true ∧
  endsWith "N" "ON" = false ∧ endsWith "ONE" "ON" = false.
Proof. repeat split. Qed.

Example sliceDropLast_examples :
  sliceDropLast 2 "NVDAon" = "NVDA" ∧ sliceDropLast 2 "o" = "".
Proof. repeat split. Qed.

Example sortStrings_example :
  sortStrings ["b"; "a"; "B"; "ab"] = ["B"; "a"; "ab"; "b"].
Proof. vm_compute. reflexivity. Qed.

(** Sorting forgets the order the elements came in. *)
Lemma sortStrings_permutation (l1 l2 : list string) :
  l1 ≡ₚ l2 -> sortStrings l1 = sortStrings l2.
Proof.
  intros Hperm. unfold sortStrings.
  apply (Sorted_unique codeUnitLe); try apply Sorted_merge_sort; try apply _.
  by rewrite !merge_sort_Permutation.
Qed.

End JsFacts.

Export JsFacts.

(** ** Cache *)

Module CacheFacts.
Import Cache.

Section Store.
Context {T : Type}.
Implicit Types (cacheStore : gmap string (CacheEntry T)) (k : string) (v : T).

Lemma isExpired_false now ts : now - ts ≤ 60000 -> isExpired now ts = false.
Proof. intros H. unfold isExpired, CACHE_TTL_MS. apply bool_decide_eq_false. lia. Qed.

Lemma isExpired_true now ts : now - ts > 60000 -> isExpired now ts = true.
Proof. intros H. unfold isExpired, CACHE_TTL_MS. apply bool_decide_eq_true. lia. Qed.

(** A call that leaves [k] alone and reads the clock inside the window
    keeps a fresh entry where it is. *)
Lemma runCall_keeps_fresh (c : Call) cacheStore k v t0 t :
  leavesKey k c -> readsClockBy t c -> t - t0 ≤ 60000 ->
  cacheStore !! k = Some (mkEntry v t0) ->
  runCall c cacheStore !! k = Some (mkEntry v t0).
Proof.
  intros Hk Ht Hwin Hlook. destruct c as [now key|now key d|key|clock|]; simpl in *.
  - unfold getCached. destruct (cacheStore !! key) as [e|] eqn:He; simpl; [|done].
    destruct (isExpired now (timestamp e)) eqn:Hexp; simpl; [|done].
    destruct (decide (key = k)) as [->|Hne].
    + rewrite Hlook in He. injection He as <-. simpl in Hexp.
      rewrite isExpired_false in Hexp; [done | lia].
    + by rewrite lookup_delete_ne.
  - unfold setCached. by rewrite lookup_insert_ne.
  - unfold clearCached. by rewrite lookup_delete_ne.
  - unfold clearExpiredEntries. apply map_lookup_filter_Some. split; [done|].
    simpl. apply isExpired_false. specialize (Ht k). lia.
  - done.
Qed.

Lemma runCalls_keeps_fresh (cs : list Call) cacheStore k v t0 t :
  Forall (leavesKey k) cs -> Forall (readsClockBy t) cs -> t - t0 ≤ 60000 ->
  cacheStore !! k = Some (mkEntry v t0) ->
  runCalls cs cacheStore !! k = Some (mkEntry v t0).
Proof.
  intros Hk Ht Hwin. revert cacheStore.
  induction cs as [|c cs IH]; intros cacheStore Hlook; simpl; [done|].
  inversion Hk; inversion Ht; subst.
  apply IH; try done. by eapply runCall_keeps_fresh.
Qed.

(** A call that leaves [k] alone can at most drop the entry of [k]. *)
Lemma runCall_same_or_gone (c : Call) cacheStore k (e : CacheEntry T) :
  leavesKey k c ->
  cacheStore !! k = None ∨ cacheStore !! k = Some e ->
  runCall c cacheStore !! k = None ∨ runCall c cacheStore !! k = Some e.
Proof.
  intros Hk Hlook. destruct c as [now key|now key d|key|clock|]; simpl in *.
  - unfold getCached. destruct (cacheStore !! key) as [e'|] eqn:He; simpl; [|done].
    destruct (isExpired now (timestamp e')); simpl; [|done].
    destruct (decide (key = k)) as [->|Hne].
    + left. apply lookup_delete_eq.
    + by rewrite lookup_delete_ne.
  - unfold setCached. by rewrite lookup_insert_ne.
  - unfold clearCached. by rewrite lookup_delete_ne.
  - unfold clearExpiredEntries.
    destruct (filter _ cacheStore !! k) as [e'|] eqn:Hf; [|by left].
    apply map_lookup_filter_Some in Hf as [Hf _].
    destruct Hlook as [Hl|Hl]; rewrite Hl in Hf; [done|]. by right.
  - done.
Qed.

Lemma runCalls_same_or_gone (cs : list Call) cacheStore k (e : CacheEntry T) :
  Forall (leavesKey k) cs ->
  cacheStore !! k = None ∨ cacheStore !! k = Some e ->
  runCalls cs cacheStore !! k = None ∨ runCalls cs cacheStore !! k = Some e.
Proof.
  intros Hk. revert cacheStore.
  induction cs as [|c cs IH]; intros cacheStore Hlook; simpl; [done|].
  inversion Hk; subst. apply IH; [done|]. by apply runCall_same_or_gone.
Qed.

(** C2: after [setCached(k, v)] at time [t0] and any calls that neither set
    nor clear [k], [getCached(k)] at time [t] returns [v] when
    [t - t0] is within the 60000 ms TTL (the clock not running backwards
    past [t] in between), and returns null when [t - t0] exceeds it. *)
Theorem getCached_after_setCached k v (t0 t : Z) (cs : list Call) cacheStore :
  Forall (leavesKey k) cs ->
  let later := runCalls cs (setCached t0 k v cacheStore) in
  (t - t0 ≤ 60000 -> Forall (readsClockBy t) cs -> (getCached t k later).1 = Some v) ∧
  (t - t0 > 60000 -> (getCached t k later).1 = None).
Proof.
  intros Hk later. split.
  - intros Hwin Ht.
    assert (later !! k = Some (mkEntry v t0)) as Hl.
    { apply (runCalls_keeps_fresh cs _ k v t0 t); try done.
      unfold setCached. apply lookup_insert_eq. }
    unfold getCached. rewrite Hl. simpl. by rewrite isExpired_false.
  - intros Hexp.
    assert (later !! k = None ∨ later !! k = Some (mkEntry v t0)) as Hl.
    { apply runCalls_same_or_gone; [done|]. right.
      unfold setCached. apply lookup_insert_eq. }
    unfold getCached. destruct Hl as [-> | ->]; [done|].
    simpl. by rewrite isExpired_true.
Qed.

End Store.

(** C2 at a concrete store: a value read back 60 s after it was set, with
    another key set and a sweep in between, and gone 1 ms later. *)
Lemma getCached_after_setCached_witness :
  let cs := [CallSet 1500 "other" 7%nat; CallClearExpired (λ _, 2000)] in
  (getCached 61000 "k" (runCalls cs (setCached 1000 "k" 42%nat ∅))).1 = Some 42%nat ∧
  (getCached 61001 "k" (runCalls cs (setCached 1000 "k" 42%nat ∅))).1 = None.
Proof.
  pose (cs := [CallSet 1500 "other" 7%nat; CallClearExpired (T:=nat) (λ _, 2000)]).
  assert (Forall (leavesKey "k") cs) as Hk.
  { repeat constructor. simpl. discriminate. }
  split.
  - apply (getCached_after_setCached "k" 42%nat 1000 61000 cs ∅ Hk); [lia|].
    repeat constructor; simpl; intros; lia.
  - apply (getCached_after_setCached "k" 42%nat 1000 61001 cs ∅ Hk). lia.
Defined.

(** *** The Solana cache key *)

Lemma spread_fresh a heap r heap1 :
  spread a heap = Some (r, heap1) ->
  heap !! r = None ∧ heap1 = <[r := default [] (heap !! a)]> heap.
Proof.
  unfold spread. destruct (heap !! a) as [elems|] eqn:Ha; [|done].
  intros [= <- <-]. split; [|done].
  apply not_elem_of_dom. apply is_fresh.
Qed.

(** The key is a function of the sorted contents, and the heap the call
    leaves behind differs from the one it found by one fresh array. *)
Lemma getSolanaTokenDataCacheKey_spec a heap elems :
  heap !! a = Some elems ->
  ∃ r, heap !! r = None ∧
    getSolanaTokenDataCacheKey a heap =
      Some ("solana-token-data-" +:+ join "," (sortStrings elems),
            <[r := sortStrings elems]> heap).
Proof.
  intros Ha. exists (fresh (dom heap)).
  assert (heap !! fresh (dom heap) = None) as Hfresh.
  { apply not_elem_of_dom. apply is_fresh. }
  split; [done|].
  unfold getSolanaTokenDataCacheKey, spread, sortInPlace, joinArray.
  rewrite Ha. rewrite lookup_insert_eq. rewrite lookup_insert_eq. simpl.
  by rewrite insert_insert_eq.
Qed.

(** C10: two address arrays that are permutations of each other get the
    same cache key, and every array that existed before the call, the
    caller's included, has the same contents after it. *)
Theorem getSolanaTokenDataCacheKey_permutation_invariant
    (a b : Ref) (heapA heapB : gmap Ref (list string)) (addressesA addressesB : list string) :
  heapA !! a = Some addressesA ->
  heapB !! b = Some addressesB ->
  addressesA ≡ₚ addressesB ->
  ∃ key heapA' heapB',
    getSolanaTokenDataCacheKey a heapA = Some (key, heapA') ∧
    getSolanaTokenDataCacheKey b heapB = Some (key, heapB') ∧
    (∀ r l, heapA !! r = Some l -> heapA' !! r = Some l) ∧
    (∀ r l, heapB !! r = Some l -> heapB' !! r = Some l).
Proof.
  intros Ha Hb Hperm.
  destruct (getSolanaTokenDataCacheKey_spec a heapA addressesA Ha) as (ra & Hra & Hkeya).
  destruct (getSolanaTokenDataCacheKey_spec b heapB addressesB Hb) as (rb & Hrb & Hkeyb).
  rewrite (sortStrings_permutation _ _ Hperm) in Hkeya.
  eexists _, _, _. split; [exact Hkeya|]. split; [exact Hkeyb|].
  split; intros r l Hr; rewrite lookup_insert_ne; try done; congruence.
Qed.

Lemma getSolanaTokenDataCacheKey_permutation_invariant_witness :
  ∃ key heapA' heapB',
    getSolanaTokenDataCacheKey 1%positive {[ 1%positive := ["So11"; "EPjF"; "Es9v"] ]}
      = Some (key, heapA') ∧
    getSolanaTokenDataCacheKey 5%positive {[ 5%positive := ["Es9v"; "So11"; "EPjF"] ]}
      = Some (key, heapB') ∧
    (∀ r l, ({[ 1%positive := ["So11"; "EPjF"; "Es9v"] ]} : gmap Ref (list string)) !! r = Some l
            -> heapA' !! r = Some l) ∧
    (∀ r l, ({[ 5%positive := ["Es9v"; "So11"; "EPjF"] ]} : gmap Ref (list string)) !! r = Some l
            -> heapB' !! r = Some l).
Proof.
  apply (getSolanaTokenDataCacheKey_permutation_invariant 1%positive 5%positive
           {[ 1%positive := ["So11"; "EPjF"; "Es9v"] ]}
           {[ 5%positive := ["Es9v"; "So11"; "EPjF"] ]}
           ["So11"; "EPjF"; "Es9v"] ["Es9v"; "So11"; "EPjF"]).
  - reflexivity.
  - reflexivity.
  - etrans; [apply perm_skip, perm_swap|]. apply perm_swap.
Defined.

Example getSolanaTokenDataCacheKey_example :
  fst <$> getSolanaTokenDataCacheKey 1%positive {[ 1%positive := ["So11"; "EPjF"; "Es9v"] ]}
  = Some "solana-token-data-EPjF,Es9v,So11".
Proof. vm_compute. reflexivity. Qed.

End CacheFacts.

(** ** Token-list validation *)

Module TokenListValidationFacts.
Import TokenListValidation.

Lemma isTypeof_number (v : option JSValue) :
  isTypeof TNumber v = true <-> ∃ fv, v = Some fv ∧ isNumber fv.
Proof.
  unfold isTypeof, isNumber. split.
  - destruct v as [[]|]; simpl; try discriminate. eauto.
  - intros (fv & -> & x & ->). reflexivity.
Qed.

Lemma isTypeof_string (v : option JSValue) :
  isTypeof TString v = true <-> ∃ fv, v = Some fv ∧ isString fv.
Proof.
  unfold isTypeof, isString. split.
  - destruct v as [[]|]; simpl; try discriminate. eauto.
  - intros (fv & -> & x & ->). reflexivity.
Qed.

Lemma hasField_object (P : JSValue -> Prop) field props :
  hasField P field (JObject props) <-> ∃ fv, props !! field = Some fv ∧ P fv.
Proof.
  unfold hasField. split.
  - intros (props' & fv & [= <-] & Hl & HP). eauto.
  - intros (fv & Hl & HP). eauto.
Qed.

(** On an object the loop condition is the negated conjunction of the
    five type tests. *)
Lemma tokenIsMalformed_object props :
  tokenIsMalformed (JObject props) =
  Ok (negb (isTypeof TNumber (props !! "chainId") &&
            isTypeof TString (props !! "address") &&
            isTypeof TString (props !! "symbol") &&
            isTypeof TString (props !! "name") &&
            isTypeof TNumber (props !! "decimals"))).
Proof.
  unfold tokenIsMalformed. simpl.
  destruct (isTypeof TNumber (props !! "chainId")); simpl; [|done].
  destruct (isTypeof TString (props !! "address")); simpl; [|done].
  destruct (isTypeof TString (props !! "symbol")); simpl; [|done].
  destruct (isTypeof TString (props !! "name")); simpl; [|done].
  done.
Qed.

Lemma tokenIsMalformed_false_iff token :
  tokenIsMalformed token = Ok false <-> wellFormedToken token.
Proof.
  unfold wellFormedToken. destruct token as [|b|x|s|l|props];
    try (split; [discriminate | by intros [(? & ? & ? & _) _]]).
  rewrite tokenIsMalformed_object, !hasField_object.
  rewrite <- !isTypeof_number, <- !isTypeof_string.
  split.
  - intros [= H]. apply negb_false_iff in H.
    repeat (apply andb_prop in H as [H ?]). done.
  - intros (-> & -> & -> & -> & ->). done.
Qed.

Lemma validateTokens_true_iff tokens :
  validateTokens tokens = Ok true <-> Forall wellFormedToken tokens.
Proof.
  induction tokens as [|token rest IH]; simpl.
  - split; [constructor | done].
  - split.
    + destruct (tokenIsMalformed token) as [[]|e] eqn:Hm; simpl; try discriminate.
      intros Hrest. constructor; [by apply tokenIsMalformed_false_iff | by apply IH].
    + intros Hall. inversion Hall as [|? ? Htok Hrest]; subst.
      apply tokenIsMalformed_false_iff in Htok. rewrite Htok. simpl. by apply IH.
Qed.

Lemma stringTruthy_true_iff s : stringTruthy s = true <-> s ≠ "".
Proof. destruct s; simpl; split; done. Qed.

Lemma validateTokenList_true_iff data :
  validateTokenList data = Ok true <-> wellFormedTokenList data.
Proof.
  unfold wellFormedTokenList. split.
  - destruct data as [|b|x|s|l|props]; try (by destruct b); try discriminate.
    + unfold validateTokenList. simpl. destruct (numberTruthy x); discriminate.
    + unfold validateTokenList. simpl. destruct s; discriminate.
    + unfold validateTokenList. simpl.
      destruct (props !! "name") as [[| | |name| |]|] eqn:Hname; try discriminate.
      destruct (stringTruthy (trim name)) eqn:Htrim; simpl; [|discriminate].
      destruct (props !! "tokens") as [[| | | |elems|]|] eqn:Htokens; try discriminate.
      intros Hv. exists props, name, elems. repeat split; try done.
      * by apply stringTruthy_true_iff.
      * by apply validateTokens_true_iff.
  - intros (props & name & elems & -> & Hname & Htrim & Htokens & Hall).
    unfold validateTokenList. simpl. rewrite Hname.
    apply stringTruthy_true_iff in Htrim. rewrite Htrim. simpl.
    rewrite Htokens. by apply validateTokens_true_iff.
Qed.

Section WithNetwork.
Variable network : list Event -> string -> Result Response.

Lemma attemptOnce_trace url tr : (attemptOnce network url tr).2 = tr ++ [EvFetch url].
Proof. reflexivity. Qed.

Lemma attemptOnce_throw url tr e :
  (attemptOnce network url tr).1 = Throw e ->
  attemptOnce network url tr = (Throw e, tr ++ [EvFetch url]).
Proof.
  intros H. rewrite (surjective_pairing (attemptOnce network url tr)).
  by rewrite H, attemptOnce_trace.
Qed.

(** One attempt on a response that carries a well-formed list. *)
Lemma attemptOnce_wellFormed url tr response props elems :
  network tr url = Ok response -> ok response = true ->
  json response = Ok (JObject props) ->
  wellFormedTokenList (JObject props) ->
  props !! "tokens" = Some (JArray elems) ->
  attemptOnce network url tr = (Ok (Some (length elems)), tr ++ [EvFetch url]).
Proof.
  intros Hnet Hok Hjson Hwf Htokens.
  apply validateTokenList_true_iff in Hwf.
  unfold attemptOnce, fetchTokenListWithTimeout. rewrite Hnet. simpl.
  rewrite Hok. simpl. rewrite Hjson. simpl. rewrite Hwf. simpl.
  by rewrite Htokens.
Qed.

(** One attempt on a response that carries anything else. *)
Lemma attemptOnce_malformed url tr response data :
  network tr url = Ok response -> json response = Ok data ->
  ¬ wellFormedTokenList data ->
  ∃ e, attemptOnce network url tr = (Throw e, tr ++ [EvFetch url]).
Proof.
  intros Hnet Hjson Hwf.
  rewrite <- validateTokenList_true_iff in Hwf.
  unfold attemptOnce, fetchTokenListWithTimeout. rewrite Hnet. simpl.
  destruct (ok response); simpl; [|eauto].
  rewrite Hjson. simpl.
  destruct (validateTokenList data) as [[]|e]; simpl; [done|eauto|eauto].
Qed.

(** The run of the retry loop on a URL that never validates: four
    attempts separated by the three delays. *)
Lemma validateTokenListUrl_exhausted url tr :
  alwaysFails network url ->
  let tr3 := tr ++ [EvFetch url; EvSleep 1000; EvFetch url; EvSleep 2000;
                    EvFetch url; EvSleep 4000] in
  ∃ e, (attemptOnce network url tr3).1 = Throw e ∧
       validateTokenListUrl network url tr =
         (mkResult url false (Some (errorMessageOf e)) None, tr3 ++ [EvFetch url]).
Proof.
  intros Hfail tr3.
  unfold validateTokenListUrl, fetchTokenListWithRetry. cbn [seq retryLoop].
  destruct (Hfail tr) as [e0 He0]. rewrite (attemptOnce_throw _ _ _ He0).
  set (tr1 := (tr ++ [EvFetch url]) ++ [EvSleep (backoffDelay 0)]).
  destruct (Hfail tr1) as [e1 He1]. rewrite (attemptOnce_throw _ _ _ He1).
  set (tr2 := (tr1 ++ [EvFetch url]) ++ [EvSleep (backoffDelay 1)]).
  destruct (Hfail tr2) as [e2 He2]. rewrite (attemptOnce_throw _ _ _ He2).
  assert ((tr2 ++ [EvFetch url]) ++ [EvSleep (backoffDelay 2)] = tr3) as ->.
  { subst tr1 tr2 tr3. rewrite <- !app_assoc. reflexivity. }
  destruct (Hfail tr3) as [e3 He3]. rewrite (attemptOnce_throw _ _ _ He3).
  exists e3. done.
Qed.

Lemma validateTokenListUrl_exhausted_invalid url tr :
  alwaysFails network url -> isValid (validateTokenListUrl network url tr).1 = false.
Proof.
  intros Hfail. destruct (validateTokenListUrl_exhausted url tr Hfail) as (e & _ & ->). done.
Qed.

End WithNetwork.

(** C3: [validateTokenList] accepts exactly the payloads that are objects
    with a [name] string that is non-empty after trimming and a [tokens]
    array whose elements all have numeric [chainId] and [decimals] and
    string [address], [symbol] and [name]; a fetch that receives any other
    payload fails its attempt, and a fetch that receives an accepted one
    reports the length of [tokens] as [tokenCount]. *)
Theorem validateTokenList_accepts_iff_well_formed :
  (∀ data, validateTokenList data = Ok true <-> wellFormedTokenList data) ∧
  (∀ network url tr response data,
     network tr url = Ok response -> json response = Ok data ->
     ¬ wellFormedTokenList data ->
     ∃ e, (attemptOnce network url tr).1 = Throw e) ∧
  (∀ network url maxRetries tr response props elems,
     network tr url = Ok response -> ok response = true ->
     json response = Ok (JObject props) ->
     wellFormedTokenList (JObject props) ->
     props !! "tokens" = Some (JArray elems) ->
     (fetchTokenListWithRetry network url maxRetries tr).1
       = mkResult url true None (Some (length elems))).
Proof.
  split; [exact validateTokenList_true_iff|]. split.
  - intros network url tr response data Hnet Hjson Hwf.
    destruct (attemptOnce_malformed network url tr response data Hnet Hjson Hwf) as [e ->].
    eauto.
  - intros network url maxRetries tr response props elems Hnet Hok Hjson Hwf Htokens.
    unfold fetchTokenListWithRetry. cbn [seq retryLoop].
    by rewrite (attemptOnce_wellFormed network url tr response props elems).
Qed.

(** C3 on concrete payloads: a two-token list is accepted and counted, a
    list whose token has a string [decimals] is rejected. *)
Lemma validateTokenList_accepts_iff_well_formed_witness :
  let usdc : JSValue := JObject {[ "chainId" := JNumber 1%float; "address" := JString "0xA0b8";
                                   "symbol" := JString "USDC"; "name" := JString "USD Coin";
                                   "decimals" := JNumber 6%float ]} in
  let bad : JSValue := JObject {[ "chainId" := JNumber 1%float; "address" := JString "0xA0b8";
                                  "symbol" := JString "USDC"; "name" := JString "USD Coin";
                                  "decimals" := JString "6" ]} in
  let good : gmap string JSValue :=
    {[ "name" := JString "Vaulto"; "tokens" := JArray [usdc; usdc] ]} in
  let network : list Event -> string -> Result Response :=
    λ _ _, Ok (mkResponse true 200 "OK" (Ok (JObject good))) in
  wellFormedTokenList (JObject good) ∧
  ¬ wellFormedTokenList (JObject {[ "name" := JString "Vaulto"; "tokens" := JArray [bad] ]}) ∧
  (fetchTokenListWithRetry network vaultoPrimary 3 []).1
    = mkResult vaultoPrimary true None (Some 2%nat).
Proof.
  intros usdc bad good network.
  destruct validateTokenList_accepts_iff_well_formed as (Hiff & _ & Hcount).
  assert (wellFormedTokenList (JObject good)) as Hgood.
  { apply Hiff. vm_compute. reflexivity. }
  split; [exact Hgood|]. split.
  - intros Hbad. apply Hiff in Hbad. vm_compute in Hbad. discriminate.
  - apply (Hcount network vaultoPrimary 3%nat [] (mkResponse true 200 "OK" (Ok (JObject good)))
             good [usdc; usdc]); try reflexivity. exact Hgood.
Defined.

(** C1, as the code has it: on a URL whose fetch-and-validate step always
    fails, [validateTokenListUrl] makes exactly four fetch attempts (the
    first one and three retries), sleeping 1000, 2000 and 4000 ms after the
    first, second and third failure, and returns an invalid result that
    carries the message of the fourth failure. *)
Theorem validateTokenListUrl_four_attempts network url tr :
  alwaysFails network url ->
  let tr3 := tr ++ [EvFetch url; EvSleep 1000; EvFetch url; EvSleep 2000;
                    EvFetch url; EvSleep 4000] in
  ∃ lastError,
    (attemptOnce network url tr3).1 = Throw lastError ∧
    validateTokenListUrl network url tr =
      (mkResult url false (Some (errorMessageOf lastError)) None, tr3 ++ [EvFetch url]) ∧
    fetchCount (drop (length tr) (validateTokenListUrl network url tr).2) = 4%nat.
Proof.
  intros Hfail tr3.
  destruct (validateTokenListUrl_exhausted network url tr Hfail) as (e & He & Hrun).
  exists e. split; [exact He|]. split; [exact Hrun|].
  rewrite Hrun. simpl. subst tr3. rewrite <- app_assoc. rewrite drop_app_length.
  reflexivity.
Qed.

Lemma validateTokenListUrl_four_attempts_witness :
  let network : list Event -> string -> Result Response :=
    λ _ _, Ok (mkResponse false 503 "Service Unavailable" (Throw (JsError "no body"))) in
  validateTokenListUrl network vaultoPrimary [] =
    (mkResult vaultoPrimary false (Some "HTTP 503: Service Unavailable") None,
     [EvFetch vaultoPrimary; EvSleep 1000; EvFetch vaultoPrimary; EvSleep 2000;
      EvFetch vaultoPrimary; EvSleep 4000; EvFetch vaultoPrimary]).
Proof.
  intros network.
  destruct (validateTokenListUrl_four_attempts network vaultoPrimary []) as (e & He & Hrun & _).
  - intros tr. eexists. reflexivity.
  - rewrite Hrun. vm_compute in He. injection He as <-. reflexivity.
Defined.

(** C1, as the specification words it, fails: with a network that rejects
    every request the fourth attempt is made, after a third sleep of 4 s. *)
Lemma three_attempts_refuted :
  let network : list Event -> string -> Result Response :=
    λ _ _, Throw (JsError "Failed to fetch") in
  let run := validateTokenListUrl network vaultoPrimary [] in
  alwaysFails network vaultoPrimary ∧
  fetchCount run.2 = 4%nat ∧
  sleeps run.2 = [1000; 2000; 4000] ∧
  ¬ (fetchCount run.2 = 3%nat ∧ sleeps run.2 = [1000; 2000]).
Proof.
  intros network run. split.
  - intros tr. eexists. reflexivity.
  - split; [reflexivity|]. split; [reflexivity|]. intros [H _]. vm_compute in H. discriminate.
Qed.

(** C4: when validation of the primary URL always fails and validation of
    the fallback URL, tried after it, succeeds, the result is the
    one-element list [[fallbackUrl]], and the primary URL is not in it. *)
Theorem getValidatedTokenListUrls_fallback_only network primaryUrl fallbackUrl tr :
  alwaysFails network primaryUrl ->
  isValid (validateTokenListUrl network fallbackUrl
             (validateTokenListUrl network primaryUrl tr).2).1 = true ->
  (getValidatedTokenListUrls network primaryUrl fallbackUrl tr).1 = [fallbackUrl] ∧
  primaryUrl ∉ (getValidatedTokenListUrls network primaryUrl fallbackUrl tr).1.
Proof.
  intros Hfail Hfallback.
  assert ((getValidatedTokenListUrls network primaryUrl fallbackUrl tr).1 = [fallbackUrl]) as Hres.
  { unfold getValidatedTokenListUrls.
    pose proof (validateTokenListUrl_exhausted_invalid network primaryUrl tr Hfail) as Hp.
    destruct (validateTokenListUrl network primaryUrl tr) as [primaryResult tr1].
    simpl in Hp, Hfallback. rewrite Hp.
    destruct (validateTokenListUrl network fallbackUrl tr1) as [fallbackResult tr2].
    simpl in Hfallback. by rewrite Hfallback. }
  split; [exact Hres|]. rewrite Hres. intros Hin. apply list_elem_of_singleton in Hin. subst.
  rewrite validateTokenListUrl_exhausted_invalid in Hfallback; done.
Qed.

Lemma getValidatedTokenListUrls_fallback_only_witness :
  let good : gmap string JSValue := {[ "name" := JString "Vaulto"; "tokens" := JArray [] ]} in
  let network : list Event -> string -> Result Response :=
    λ _ url, if String.eqb url vaultoFallback
             then Ok (mkResponse true 200 "OK" (Ok (JObject good)))
             else Throw (JsError "Failed to fetch") in
  (getValidatedTokenListUrls network vaultoPrimary vaultoFallback []).1 = [vaultoFallback] ∧
  vaultoPrimary ∉ (getValidatedTokenListUrls network vaultoPrimary vaultoFallback []).1.
Proof.
  intros good network.
  apply (getValidatedTokenListUrls_fallback_only network vaultoPrimary vaultoFallback []).
  - intros tr. eexists. reflexivity.
  - vm_compute. reflexivity.
Defined.

(** C8: whatever the validations yield, [getCowSwapTokenLists] returns a
    non-empty list: first the Vaulto primary URL if it validated and the
    Vaulto fallback URL otherwise (whether or not the fallback validated),
    then the Uniswap URL exactly when the Uniswap list validated. *)
Theorem getCowSwapTokenLists_shape network tr :
  let primary := validateTokenListUrl network vaultoPrimary tr in
  let afterVaulto :=
    if isValid primary.1 then primary.2
    else (validateTokenListUrl network vaultoFallback primary.2).2 in
  let uniswap := validateTokenListUrl network uniswapList afterVaulto in
  getCowSwapTokenLists network tr =
    ((if isValid primary.1 then vaultoPrimary else vaultoFallback)
       :: (if isValid uniswap.1 then [uniswapList] else []),
     uniswap.2).
Proof.
  intros primary afterVaulto uniswap. subst primary afterVaulto uniswap.
  unfold getCowSwapTokenLists.
  destruct (validateTokenListUrl network vaultoPrimary tr) as [primaryResult tr1]. simpl.
  destruct (isValid primaryResult).
  - destruct (validateTokenListUrl network uniswapList tr1) as [uniswapResult tr3]. simpl.
    by destruct (isValid uniswapResult).
  - destruct (validateTokenListUrl network vaultoFallback tr1) as [fallbackResult tr2]. simpl.
    destruct (isValid fallbackResult);
      destruct (validateTokenListUrl network uniswapList tr2) as [uniswapResult tr3]; simpl;
      by destruct (isValid uniswapResult).
Qed.

(** With every list unreachable the widget still gets the Vaulto fallback. *)
Example getCowSwapTokenLists_all_down :
  (getCowSwapTokenLists (λ _ _, Throw (JsError "Failed to fetch")) []).1 = [vaultoFallback].
Proof. vm_compute. reflexivity. Qed.

End TokenListValidationFacts.

(** ** The stock percentage-change route *)

Module StockPctChangeFacts.
Import StockPctChange.

(** [a || b || 0] is a number other than [NaN]. *)
Lemma orZero_not_nan (a : option float) : PrimFloat.is_nan (orZero a) = false.
Proof.
  unfold orZero. destruct a as [x|]; [|reflexivity].
  destruct (numberTruthy x) eqn:Hx; [|reflexivity].
  unfold numberTruthy in Hx. apply andb_prop in Hx as [_ Hx].
  by apply negb_true_iff in Hx.
Qed.

Lemma errorBody_failure message : failureBody (errorBody message).
Proof. exists message. apply lookup_singleton_eq. Qed.

Ltac failure_with code :=
  eexists; split; [reflexivity|]; right; simpl;
  split; [code | first [apply errorBody_failure | eexists; apply lookup_insert_eq]].

(** C6: [GET] always answers; with status 200 the body has a numeric
    [priceChangePercent], a string [ticker] and no [error]; otherwise the
    status is 400, 404, 500 or 503 and the body has an [error] string. *)
Theorem GET_response_shape {Token : Type}
    (getTokenMetadata : string -> Result (option Token))
    (isTokenizedStock : Token -> Result bool)
    (getStockTicker : Token -> Result (option string))
    (importYahooFinance : Result (string -> Result (option Quote)))
    (address : string) :
  ∃ response,
    GET getTokenMetadata isTokenizedStock getStockTicker importYahooFinance address
      = Ok response ∧
    ((status response = 200%nat ∧ successBody (body response)) ∨
     ((status response = 400%nat ∨ status response = 404%nat ∨
       status response = 500%nat ∨ status response = 503%nat) ∧
      failureBody (body response))).
Proof.
  unfold GET.
  destruct (stringTruthy address); simpl; [|failure_with ltac:(auto)].
  destruct (getTokenMetadata address) as [[token|]|e]; simpl;
    [|failure_with ltac:(auto)|failure_with ltac:(auto)].
  destruct (isTokenizedStock token) as [[]|e]; simpl;
    [|failure_with ltac:(auto)|failure_with ltac:(auto)].
  destruct (getStockTicker token) as [[[|c ticker]|]|e]; simpl;
    [failure_with ltac:(auto)| |failure_with ltac:(auto)|failure_with ltac:(auto)].
  destruct importYahooFinance as [yahooFinance|importError]; simpl;
    [|failure_with ltac:(auto)].
  destruct (yahooFinance (String c ticker)) as [[q|]|yahooError]; simpl;
    [|failure_with ltac:(auto)|failure_with ltac:(auto)].
  eexists; split; [reflexivity|]. left. split; [reflexivity|]. simpl.
  split; [|split].
  - eexists. split; [by simplify_map_eq | apply orZero_not_nan].
  - eexists. by simplify_map_eq.
  - by simplify_map_eq.
Qed.

(** A quote that carries only [changePercent]. *)
Example GET_success :
  GET (Token:=string) (λ a, Ok (Some a)) (λ _, Ok true) (λ _, Ok (Some "NVDA"))
      (Ok (λ _, Ok (Some (mkQuote None (Some 1.5%float))))) "0xabc"
  = Ok (mkHttpResponse 200
          {[ "ticker" := JString "NVDA"; "priceChangePercent" := JNumber 1.5%float ]}
          [("Cache-Control", "public, s-maxage=60, stale-while-revalidate=120")]).
Proof. reflexivity. Qed.

(** A helper that throws ends in the outer [catch]. *)
Example GET_internal_error :
  GET (Token:=string) (λ _, Throw (JsError "config missing")) (λ _, Ok true)
      (λ _, Ok (Some "NVDA")) (Ok (λ _, Ok None)) "0xabc"
  = Ok (mkHttpResponse 500
          {[ "error" := JString "Internal server error";
             "details" := JString "config missing" ]} []).
Proof. reflexivity. Qed.

End StockPctChangeFacts.

(** ** The token details component *)

Module TokenDetailsClientFacts.
Import TokenDetailsClient.

(** *** Running the component monad *)

Lemma run_bind {A B} (m : M A) (k : A -> M B) ui :
  (m ≫= k) ui = match m ui with
                | (Ok a, ui1) => k a ui1
                | (Throw e, ui1) => (Throw e, ui1)
                end.
Proof. reflexivity. Qed.

Lemma run_bind_ok {A B} (m : M A) (k : A -> M B) ui a ui1 :
  m ui = (Ok a, ui1) -> (m ≫= k) ui = k a ui1.
Proof. intros H. by rewrite run_bind, H. Qed.

Lemma run_bind_throw {A B} (m : M A) (k : A -> M B) ui e ui1 :
  m ui = (Throw e, ui1) -> (m ≫= k) ui = (Throw e, ui1).
Proof. intros H. by rewrite run_bind, H. Qed.

Section Respects.
Context (R : UI -> UI -> Prop) `{!PreOrder R}.

Lemma respects_mret {A} (a : A) : respects R (mret a).
Proof. intros ui. simpl. reflexivity. Qed.

Lemma respects_await {A} (r : Result A) : respects R (await r).
Proof. intros ui. simpl. reflexivity. Qed.

Lemma respects_bind {A B} (m : M A) (k : A -> M B) :
  respects R m -> (∀ a, respects R (k a)) -> respects R (m ≫= k).
Proof.
  intros Hm Hk ui. rewrite run_bind. specialize (Hm ui).
  destruct (m ui) as [[a|e] ui1]; simpl in *; [|done].
  etrans; [exact Hm | apply Hk].
Qed.

Lemma respects_tryCatchM {A} (body : M A) (handler : Exn -> M A) :
  respects R body -> (∀ e, respects R (handler e)) -> respects R (tryCatchM body handler).
Proof.
  intros Hb Hh ui. unfold tryCatchM. specialize (Hb ui).
  destruct (body ui) as [[a|e] ui1]; simpl in *; [done|].
  etrans; [exact Hb | apply Hh].
Qed.

Lemma respects_tryFinallyM {A} (body : M A) (cleanup : M unit) :
  respects R body -> respects R cleanup -> respects R (tryFinallyM body cleanup).
Proof.
  intros Hb Hc ui. unfold tryFinallyM. specialize (Hb ui).
  destruct (body ui) as [r ui1]. specialize (Hc ui1).
  destruct (cleanup ui1) as [[u|e] ui2]; simpl in *; by etrans.
Qed.


End Respects.



Lemma neverThrows_setState f : neverThrows (setState f).
Proof. intros ui. by exists (). Qed.

Lemma neverThrows_bind {A B} (m : M A) (k : A -> M B) :
  neverThrows m -> (∀ a, neverThrows (k a)) -> neverThrows (m ≫= k).
Proof.
  intros Hm Hk ui. rewrite run_bind. destruct (Hm ui) as [a Ha].
  destruct (m ui) as [r ui1]. simpl in Ha. subst r. apply Hk.
Qed.



Lemma neverThrows_run (m : M unit) ui :
  neverThrows m -> m ui = (Ok (), (m ui).2).
Proof.
  intros Hm. destruct (Hm ui) as [[] Ha].
  rewrite (surjective_pairing (m ui)). by rewrite Ha.
Qed.

Lemma pureM_mret {A} (a : A) : pureM (mret a : M A).
Proof. by exists (Ok a). Qed.

Lemma pureM_await {A} (r : Result A) : pureM (await r).
Proof. by exists r. Qed.

Lemma pureM_bind {A B} (m : M A) (k : A -> M B) :
  pureM m -> (∀ a, pureM (k a)) -> pureM (m ≫= k).
Proof.
  intros [[a|e] Hm] Hk.
  - destruct (Hk a) as [y Hy]. exists y. intros ui. by rewrite run_bind, Hm, Hy.
  - exists (Throw e). intros ui. by rewrite run_bind, Hm.
Qed.

(** *** Chart symbol of Ondo-style symbols *)

Lemma length_toUpperCase s : String.length (toUpperCase s) = String.length s.
Proof. induction s as [|c s IH]; simpl; [done | by rewrite IH]. Qed.

Lemma toUpperCase_substring n m s :
  toUpperCase (String.substring n m s) = String.substring n m (toUpperCase s).
Proof.
  revert n m. induction s as [|c s IH]; intros [|n] [|m]; simpl; try done;
    by rewrite IH.
Qed.

Lemma toUpperCase_sliceDropLast k s :
  toUpperCase (sliceDropLast k s) = sliceDropLast k (toUpperCase s).
Proof. unfold sliceDropLast. by rewrite toUpperCase_substring, length_toUpperCase. Qed.

Lemma sliceDropLast_truthy s :
  (2 < String.length s)%nat -> stringTruthy (toUpperCase (sliceDropLast 2 s)) = true.
Proof.
  intros Hlen. unfold sliceDropLast.
  destruct s as [|c s]; simpl in Hlen; [lia|].
  destruct (String.length (String c s) - 2)%nat as [|m] eqn:Hm; simpl in Hm; [lia|].
  reflexivity.
Qed.

(** The lookup in [ondoTickerMappings] never changes the ticker: the one
    entry maps [SPYON] to what dropping [ON] gives anyway. *)
Lemma ondo_chart_symbol sym :
  (2 < String.length sym)%nat ->
  default "" (orString (ondoTickerMappings !! toUpperCase sym)
                       (Some (toUpperCase (sliceDropLast 2 sym))))
  = toUpperCase (sliceDropLast 2 sym).
Proof.
  intros Hlen. unfold ondoTickerMappings.
  destruct (decide (toUpperCase sym = "SPYON")) as [Heq|Hne].
  - rewrite toUpperCase_sliceDropLast, Heq. reflexivity.
  - rewrite lookup_singleton_ne by congruence. reflexivity.
Qed.

(** C9: when the upper-cased effective symbol ends in [ON] and is longer
    than two characters, the component takes the token for a tokenized
    stock whatever the configuration says: the chart type is [stock], the
    chart symbol is the upper-cased symbol without its last two characters
    ([SPY] for [SPYON]), [fetchData] asks for stock data, and the details
    it returns once loading is over carry that chart and the Tokenized
    Stock badge. *)
Theorem ondo_symbol_is_tokenized_stock (r : Render) :
  endsWith (toUpperCase (effectiveSymbol r)) "ON" = true ->
  (String.length (toUpperCase (effectiveSymbol r)) > 2)%nat ->
  chartFor r = (toUpperCase (sliceDropLast 2 (effectiveSymbol r)), stock) ∧
  (toUpperCase (effectiveSymbol r) = "SPYON" -> (chartFor r).1 = "SPY") ∧
  wantsStockData r = true ∧
  (isLoading (rState r) = false ->
   view r = TokenDetails
              (mkDetails (toUpperCase (sliceDropLast 2 (effectiveSymbol r))) stock true
                 (shownIfPositive (volumeUSD (rState r)))
                 (shownIfPositive (tvlUSD (rState r))))).
Proof.
  intros Hends Hlen. rewrite length_toUpperCase in Hlen.
  assert (isOndoSymbol (effectiveSymbol r) = true) as Hondo.
  { unfold isOndoSymbol. rewrite Hends. simpl. apply Nat.ltb_lt. lia. }
  assert (optionStringTruthy (ondoTickerOf (effectiveSymbol r)) = true) as Hticker.
  { unfold ondoTickerOf. rewrite Hondo. simpl. apply sliceDropLast_truthy. lia. }
  assert (chartFor r = (toUpperCase (sliceDropLast 2 (effectiveSymbol r)), stock)) as Hchart.
  { unfold chartFor. rewrite Hondo, Hticker. simpl.
    unfold ondoTickerOf. rewrite Hondo. by rewrite ondo_chart_symbol by lia. }
  split; [exact Hchart|]. split; [|split].
  - intros Hspy. rewrite Hchart. simpl. by rewrite toUpperCase_sliceDropLast, Hspy.
  - unfold wantsStockData. rewrite Hondo, Hticker. by rewrite orb_true_r.
  - intros Hload. unfold view. rewrite Hload, Hchart, Hondo. by rewrite orb_true_r.
Qed.

(** C9 on the crypto symbol [TON], for a token that is not in the
    configuration: the chart asks for the stock [T]. *)
Lemma ondo_symbol_is_tokenized_stock_witness :
  let r := mkRender "EQAvlWFDxGF2lXm67y4yzC17wYKD9A0guwPkMs1gOsM__NOT"
             (Some "TON") None 1%float false None None None "TON"
             (mkState None None None None false None) in
  chartFor r = ("T", stock) ∧
  wantsStockData r = true ∧
  view r = TokenDetails (mkDetails "T" stock true None None).
Proof.
  intros r.
  destruct (ondo_symbol_is_tokenized_stock r) as (Hchart & _ & Hwants & Hview);
    [reflexivity | simpl; lia |].
  split; [exact Hchart|]. split; [exact Hwants|]. apply Hview. reflexivity.
Defined.

Example spyon_chart :
  chartFor (mkRender "0x1" (Some "SPYon") None 1%float false None None None "SPYon"
              (mkState None None None None false None)) = ("SPY", stock).
Proof. reflexivity. Qed.

Example eth_chart :
  chartFor (mkRender "0x1" (Some "ETH") None 1%float false None None None "ETH"
              (mkState None None None None false None)) = ("ETH", crypto).
Proof. reflexivity. Qed.

(** *** The primary price path only computes *)

Lemma tryAlternativeChains_pure svc r chains priceData :
  pureM (tryAlternativeChains svc r chains priceData).
Proof.
  revert priceData. induction chains as [|altChainId chains IH]; intros priceData; simpl.
  - apply pureM_mret.
  - destruct (negb _); [|apply IH].
    apply pureM_bind; [apply pureM_await|].
    intros [found|]; [apply pureM_mret | apply IH].
Qed.

Lemma fetchPriceData_pure svc r ui :
  fetchPriceData svc r ui = (priceOutcome svc r, ui).
Proof.
  assert (pureM (fetchPriceData svc r)) as [x Hx].
  { unfold fetchPriceData. apply pureM_bind.
    { destruct (stringTruthy (rAddress r)); [apply pureM_await | apply pureM_mret]. }
    intros byAddress. apply pureM_bind.
    { destruct byAddress, (token r) as [t|]; try apply pureM_mret.
      destruct (stringTruthy (tokenConfigSymbol t)); [apply pureM_await | apply pureM_mret]. }
    intros bySymbol. destruct bySymbol; [apply pureM_mret|].
    destruct (stringTruthy (rAddress r)); [apply tryAlternativeChains_pure | apply pureM_mret]. }
  unfold priceOutcome. by rewrite !Hx.
Qed.

(** *** The optional fetches are quiet *)

Lemma toasts_app l1 l2 : toasts (l1 ++ l2) = toasts l1 ++ toasts l2.
Proof. unfold toasts. apply omap_app. Qed.

#[local] Instance quietly_preorder : PreOrder quietly.
Proof.
  split.
  - intros ui. exists []. by rewrite app_nil_r.
  - intros a b c (n1 & He1 & Ht1 & Hs1) (n2 & He2 & Ht2 & Hs2).
    exists (n1 ++ n2). rewrite He2, He1, app_assoc, toasts_app, Ht1, Ht2.
    split; [done|]. split; [done | congruence].
Qed.




Lemma respects_when_cond (R : UI -> UI -> Prop) `{!PreOrder R} (c : bool) (body : M unit) :
  (c = true -> respects R body) -> respects R (when c body).
Proof. intros Hb. destruct c; [by apply Hb | by apply respects_mret]. Qed.

Ltac respects_step base :=
  first
    [ base
    | apply respects_mret; apply _
    | apply respects_await; apply _
    | apply respects_bind; [apply _ | | intros ?]
    | apply respects_tryCatchM; [apply _ | | intros ?]
    | apply respects_tryFinallyM; [apply _ | |]
    | apply respects_when_cond; [apply _ | intros ?]
    | match goal with
      | |- respects _ (if ?c then _ else _) => destruct c eqn:?
      | |- respects _ (match ?x with _ => _ end) => destruct x eqn:?
      end ].










Lemma run_seq {B} (m : M unit) (k : M B) ui :
  neverThrows m -> (m ;; k) ui = k (m ui).2.
Proof. intros Hm. rewrite run_bind. by rewrite (neverThrows_run m ui Hm). Qed.



(** *** [fetchData] run by run *)


(** The run when the price path throws: the two setters, then the outer
    [catch] and [setIsLoading(false)]. *)
Lemma fetchData_price_throws svc r ui err :
  priceOutcome svc r = Throw err ->
  let ui2 := (setError None (setIsLoading true ui).2).2 in
  let message := messageOr err "Failed to load token data" in
  let ui3 := (setError (Some message)
                (emit (ConsoleError "Error fetching token data:") ui2).2).2 in
  let ui4 := (emit (ToastError "Failed to load token data") ui3).2 in
  fetchData svc r ui = (Ok (), (setIsLoading false ui4).2).
Proof.
  intros Hprice ui2 message ui3 ui4. unfold fetchData.
  rewrite run_seq by apply neverThrows_setState.
  rewrite run_seq by apply neverThrows_setState.
  fold ui2. unfold tryFinallyM, tryCatchM.
  rewrite run_bind, fetchPriceData_pure, Hprice.
  reflexivity.
Qed.



(** C5 on a Uniswap-chain token whose stock-data and pool requests are
    both rejected: two console entries, no toast, no error. *)
Example fetchData_optional_failures :
  let svc := mkServices (λ _ _, Ok (Some (mkCoinGecko "nvdaon"))) (λ _, Ok None)
               (λ _, Throw (JsError "Failed to fetch")) (λ _, Throw (JsError "Failed to fetch"))
               (λ _ _ _, Throw (JsError "subgraph down")) in
  let r := mkRender "0x2d1f" (Some "NVDAon") None 1%float false None None None "NVDAon"
             initialState in
  let out := fetchData svc r (mkUI initialState []) in
  out.1 = Ok () ∧
  error (state out.2) = None ∧ isLoading (state out.2) = false ∧
  toasts (effects out.2) = [] ∧
  omap (λ e, match e with StateUpdate _ => None | _ => Some e end) (effects out.2)
    = [ConsoleError "Error fetching stock data:";
       ConsoleError "Error fetching TVL/volume data:"].
Proof. vm_compute. repeat split. Qed.

(** A Solana response with a non-ok status is not an exception: it is
    ignored without a console entry, and again without toast or error. *)
Example fetchData_solana_not_ok :
  let svc := mkServices (λ _ _, Ok None) (λ _, Ok None)
               (λ _, Throw (JsError "unused"))
               (λ _, Ok (mkSolanaResponse false (Throw (JsError "not read"))))
               (λ _ _ _, Throw (JsError "unused")) in
  let r := mkRender "So11111111111111111111111111111111111111112" None None 101%float
             false None None None "TOKEN" initialState in
  let out := fetchData svc r (mkUI initialState []) in
  out.1 = Ok () ∧
  error (state out.2) = None ∧ isLoading (state out.2) = false ∧
  omap (λ e, match e with StateUpdate _ => None | _ => Some e end) (effects out.2) = [].
Proof. vm_compute. repeat split. Qed.

(** C5 on a rejected price request: one toast, the message in the state. *)
Example fetchData_price_failure :
  let svc := mkServices (λ _ _, Throw (JsError "rate limited")) (λ _, Ok None)
               (λ _, Throw (JsError "unused")) (λ _, Throw (JsError "unused"))
               (λ _ _ _, Throw (JsError "unused")) in
  let r := mkRender "0x2d1f" None None 1%float false None None None "TOKEN" initialState in
  let out := fetchData svc r (mkUI initialState []) in
  out.1 = Ok () ∧
  error (state out.2) = Some "rate limited" ∧ isLoading (state out.2) = false ∧
  toasts (effects out.2) = ["Failed to load token data"].
Proof. vm_compute. repeat split. Qed.

(** *** The TVL / volume invariant *)

#[local] Instance keepsInvariant_preorder : PreOrder keepsInvariant.
Proof. split; unfold keepsInvariant; [by intros ui | intros a b c; tauto]. Qed.

Lemma keeps_emit e : (∀ s, e ≠ StateUpdate s) -> respects keepsInvariant (emit e).
Proof.
  intros He ui [Hs Hlog]. split; [done|]. simpl.
  apply Forall_app. split; [done|]. constructor; [|done].
  destruct e; try done. by destruct (He after).
Qed.

Lemma keeps_setState f :
  (∀ s, stateInvariant s -> stateInvariant (f s)) -> respects keepsInvariant (setState f).
Proof.
  intros Hf ui [Hs Hlog]. split; simpl; [by apply Hf|].
  apply Forall_app. split; [done|]. constructor; [by apply Hf | done].
Qed.

Lemma keeps_setTvlUSD v : nullOrPositive v -> respects keepsInvariant (setTvlUSD v).
Proof. intros Hv. apply keeps_setState. by intros s [_ Hvol]. Qed.

Lemma keeps_setVolumeUSD v : nullOrPositive v -> respects keepsInvariant (setVolumeUSD v).
Proof. intros Hv. apply keeps_setState. by intros s [Htvl _]. Qed.

Lemma respects_pureM (R : UI -> UI -> Prop) `{!PreOrder R} {A} (m : M A) :
  pureM m -> respects R m.
Proof. intros [x Hx] ui. by rewrite Hx. Qed.

Lemma fetchPriceData_pureM svc r : pureM (fetchPriceData svc r).
Proof. exists (priceOutcome svc r). apply fetchPriceData_pure. Qed.

(** The three guards in front of the setters. *)
Lemma shouldStore_positive needs v : shouldStore needs v = true -> nullOrPositive v.
Proof.
  unfold shouldStore. intros H. apply andb_prop in H as [_ H].
  by destruct v.
Qed.

Lemma guard_positive (needs : bool) x : needs && gtZero x = true -> nullOrPositive (Some x).
Proof. intros H. by apply andb_prop in H as [_ H]. Qed.

Lemma parsePositive_positive parseFloat param : nullOrPositive (parsePositive parseFloat param).
Proof.
  unfold parsePositive. destruct param as [p|]; [|done].
  destruct (stringTruthy p); [|done].
  destruct (negb (PrimFloat.is_nan (parseFloat p)) && gtZero (parseFloat p)) eqn:H; [|done].
  by apply andb_prop in H as [_ H].
Qed.

Ltac keeps_base :=
  first [ apply keeps_emit; intros ?; discriminate
        | apply keeps_setTvlUSD; eauto using shouldStore_positive, guard_positive
        | apply keeps_setVolumeUSD; eauto using shouldStore_positive, guard_positive
        | apply respects_pureM; [apply _ | apply fetchPriceData_pureM]
        | apply keeps_setState; intros ? [? ?]; split; assumption ].

Lemma fetchData_keeps svc r : respects keepsInvariant (fetchData svc r).
Proof.
  unfold fetchData, fetchStock, fetchStockBody, fetchTvlVolume, fetchTvlVolumeBody,
    setIsLoading, setError, setCoingeckoData, setStockData.
  repeat respects_step keeps_base.
Qed.

Lemma applyInitialValues_keeps r :
  nullOrPositive (initialTvl r) -> nullOrPositive (initialVolume r) ->
  respects keepsInvariant (applyInitialValues r).
Proof. intros Htvl Hvol. unfold applyInitialValues. repeat respects_step keeps_base. Qed.

(** C7: in every component instance that can arise, [tvlUSD] and
    [volumeUSD] are null or greater than zero, and they were so after
    every state update made on the way: they start as null, the URL
    values are kept only if they parse to a number above zero, and each
    setter call of [fetchData] sits behind a [> 0] test. *)
Theorem tvl_volume_null_or_positive
    (parseFloat parseInt10 : string -> float)
    (getTokenMetadata : string -> option TokenInfo)
    (isTokenizedStock : Token -> bool) (getStockTicker : Token -> option string)
    (ui : UI) :
  reachable parseFloat parseInt10 getTokenMetadata isTokenizedStock getStockTicker ui ->
  uiInvariant ui.
Proof.
  induction 1 as [|ui props searchParams s Hreach IH|ui svc props searchParams s Hreach IH].
  - by split.
  - apply applyInitialValues_keeps; [apply parsePositive_positive .. | exact IH].
  - by apply fetchData_keeps.
Qed.

(** C7 on one visit: the URL carries [tvl=1500.5] and [volume=-3]; the
    pools of the token report a total volume of 20. *)
Lemma tvl_volume_null_or_positive_witness :
  let parseFloat : string -> float :=
    λ p, if String.eqb p "1500.5" then 1500.5%float
         else if String.eqb p "-3" then (-3)%float else PrimFloat.nan in
  let props := mkProps "0x2d1f" None in
  let searchParams := mkSearchParams (Some "1500.5") (Some "-3") None None in
  let svc := mkServices (λ _ _, Ok None) (λ _, Ok None)
               (λ _, Throw (JsError "unused")) (λ _, Throw (JsError "unused"))
               (λ _ _ _, Ok (mkPoolsResult
                               (Some [mkPool (Some 7%float) (Some 12%float);
                                      mkPool None (Some 8%float)]))) in
  let r := render parseFloat parseFloat (λ _, None) (λ _, false) (λ _, None)
             props searchParams initialState in
  let ui := (fetchData svc r (applyInitialValues r (mkUI initialState [])).2).2 in
  (tvlUSD (state ui) = Some 1500.5%float ∧ volumeUSD (state ui) = Some 20%float) ∧
  uiInvariant ui.
Proof.
  intros parseFloat props searchParams svc r ui. split; [by vm_compute|].
  apply (tvl_volume_null_or_positive parseFloat parseFloat (λ _, None) (λ _, false) (λ _, None)).
  apply (reach_fetch_data _ _ _ _ _ _ svc props searchParams initialState).
  apply (reach_initial_values _ _ _ _ _ _ props searchParams initialState).
  apply reach_mount.
Defined.

(** What the guard keeps out. *)
Example gtZero_rejects :
  gtZero PrimFloat.nan = false ∧ gtZero 0%float = false ∧
  gtZero (-0)%float = false ∧ gtZero (-2.5)%float = false ∧
  gtZero PrimFloat.infinity = true.
Proof. vm_compute. repeat split. Qed.

End TokenDetailsClientFacts.

(** * Further properties *)

(** ** Cache: reads, sweeps and keys *)

Module CacheExtra.
Import Cache CacheFacts.

Section Store.
Context {T : Type}.
Implicit Types (cacheStore : gmap string (CacheEntry T)) (k : string).

(** X1: a read that hits returns the data of an entry at most 60 s old and
    leaves the store as it was; a read that misses leaves no entry under
    the key, touches no other key, and every later read of the key misses
    too, whatever the clock says. *)
Theorem getCached_hit_or_evict now k cacheStore :
  match (getCached now k cacheStore).1 with
  | Some v =>
      (getCached now k cacheStore).2 = cacheStore ∧
      ∃ entry, cacheStore !! k = Some entry ∧ data entry = v ∧
               now - timestamp entry ≤ 60000
  | None =>
      (getCached now k cacheStore).2 !! k = None ∧
      (∀ k', k' ≠ k -> (getCached now k cacheStore).2 !! k' = cacheStore !! k') ∧
      (∀ t, (getCached t k (getCached now k cacheStore).2).1 = None)
  end.
Proof.
  destruct (getCached now k cacheStore) as [r later] eqn:Hrun. simpl.
  unfold getCached in Hrun.
  destruct (cacheStore !! k) as [entry|] eqn:Hk.
  - destruct (isExpired now (timestamp entry)) eqn:Hexp; injection Hrun as <- <-.
    + split; [apply lookup_delete_eq|]. split.
      * intros k' Hne. by rewrite lookup_delete_ne.
      * intros t. unfold getCached. by rewrite lookup_delete_eq.
    + split; [done|]. exists entry. split; [done|]. split; [done|].
      unfold isExpired, CACHE_TTL_MS in Hexp. apply bool_decide_eq_false in Hexp. lia.
  - injection Hrun as <- <-.
    split; [done|]. split; [done|]. intros t. unfold getCached. by rewrite Hk.
Qed.

(** X2: an expiry sweep is invisible to readers: a read made no earlier
    than the sweep's clock readings returns the same with or without the
    sweep. *)
Theorem clearExpiredEntries_transparent (clock : string -> Z) t k cacheStore :
  (∀ key, clock key ≤ t) ->
  (getCached t k (clearExpiredEntries clock cacheStore)).1 = (getCached t k cacheStore).1.
Proof.
  intros Hclock. unfold getCached, clearExpiredEntries.
  destruct (cacheStore !! k) as [entry|] eqn:Hk.
  - destruct (isExpired (clock k) (timestamp entry)) eqn:Hswept.
    + assert (filter (λ kv, isExpired (clock kv.1) (timestamp kv.2) = false) cacheStore !! k
              = None) as ->.
      { apply map_lookup_filter_None. right. intros e He. simpl.
        rewrite Hk in He. injection He as <-. by rewrite Hswept. }
      simpl. rewrite isExpired_true; [done|].
      unfold isExpired, CACHE_TTL_MS in Hswept. apply bool_decide_eq_true in Hswept.
      specialize (Hclock k). lia.
    + assert (filter (λ kv, isExpired (clock kv.1) (timestamp kv.2) = false) cacheStore !! k
              = Some entry) as ->.
      { by apply map_lookup_filter_Some. }
      by destruct (isExpired t (timestamp entry)).
  - assert (filter (λ kv, isExpired (clock kv.1) (timestamp kv.2) = false) cacheStore !! k
            = None) as ->; [|done].
    apply map_lookup_filter_None. by left.
Qed.

(** What a read returns depends only on the entry under its key. *)
Lemma getCached_same_entry t k (store1 store2 : gmap string (CacheEntry T)) :
  store1 !! k = store2 !! k -> (getCached t k store1).1 = (getCached t k store2).1.
Proof.
  intros H. unfold getCached. rewrite H.
  destruct (store2 !! k) as [e|]; [|done]. by destruct (isExpired t (timestamp e)).
Qed.

(** X3: setting, clearing or reading one key never changes what a read of
    another key returns, and a cleared key reads as null. *)
Theorem cache_operations_are_local now t k k' (d : T) cacheStore :
  k' ≠ k ->
  (getCached t k' (setCached now k d cacheStore)).1 = (getCached t k' cacheStore).1 ∧
  (getCached t k' (clearCached k cacheStore)).1 = (getCached t k' cacheStore).1 ∧
  (getCached t k' (getCached now k cacheStore).2).1 = (getCached t k' cacheStore).1 ∧
  (getCached t k (clearCached k cacheStore)).1 = None.
Proof.
  intros Hne. repeat split.
  - apply getCached_same_entry. unfold setCached. by rewrite lookup_insert_ne.
  - apply getCached_same_entry. unfold clearCached. by rewrite lookup_delete_ne.
  - apply getCached_same_entry. unfold getCached.
    destruct (cacheStore !! k) as [e|]; [|done].
    destruct (isExpired now (timestamp e)); [|done]. simpl. by rewrite lookup_delete_ne.
  - unfold getCached, clearCached. by rewrite lookup_delete_eq.
Qed.

End Store.

Lemma getCached_hit_or_evict_witness :
  (getCached 70000 "k" (getCached 62000 "k" (setCached 1000 "k" 5%nat ∅)).2).1 = None.
Proof.
  pose proof (getCached_hit_or_evict 62000 "k" (setCached 1000 "k" 5%nat ∅)) as H.
  change ((getCached 62000 "k" (setCached 1000 "k" 5%nat ∅)).1) with (@None nat) in H.
  destruct H as (_ & _ & H). apply H.
Defined.

Lemma clearExpiredEntries_transparent_witness :
  (getCached 3000 "k" (clearExpiredEntries (λ _, 2000) (setCached 1000 "k" 5%nat ∅))).1
  = Some 5%nat.
Proof.
  rewrite (clearExpiredEntries_transparent (λ _, 2000) 3000 "k" (setCached 1000 "k" 5%nat ∅)).
  - reflexivity.
  - intros key. lia.
Defined.

Lemma cache_operations_are_local_witness :
  (getCached 3000 "b" (clearCached "a" (setCached 1000 "b" 5%nat ∅))).1 = Some 5%nat.
Proof.
  destruct (cache_operations_are_local 0 3000 "a" "b" 0%nat (setCached 1000 "b" 5%nat ∅))
    as (_ & -> & _); [discriminate | reflexivity].
Defined.

(** *** Cache keys *)

Local Abbreviation dashFree s := (∀ a b : string, s ≠ a +:+ "-" +:+ b).

Lemma string_app_nil_l (s : string) : "" +:+ s = s.
Proof. reflexivity. Qed.

Lemma string_app_cons c (a s : string) : String c a +:+ s = String c (a +:+ s).
Proof. reflexivity. Qed.

Ltac norm_app := repeat first [rewrite string_app_nil_l | rewrite string_app_cons].

Lemma string_app_inv_head (p s1 s2 : string) : p +:+ s1 = p +:+ s2 -> s1 = s2.
Proof.
  induction p as [|c p IH]; norm_app; [done|].
  intros [= H]. auto.
Qed.

Lemma pretty_N_go_dashFree (x : N) (s : string) : dashFree s -> dashFree (pretty_N_go x s).
Proof.
  revert s. induction (N.lt_wf_0 x) as [x _ IH]; intros s Hs.
  assert (x = 0 ∨ 0 < x)%N as [->|Hpos] by lia; [by rewrite pretty_N_go_0|].
  rewrite pretty_N_go_step by done. apply IH; [by apply N.div_lt|].
  intros [|c a] b; norm_app.
  - unfold pretty_N_char. repeat case_match; discriminate.
  - intros [= _ Hs']. by apply (Hs a b).
Qed.

(** A chain id prints without a dash. *)
Lemma pretty_nat_dashFree (n : nat) : dashFree (pretty n).
Proof.
  unfold pretty, pretty_nat, pretty, pretty_N. case_decide.
  - intros [|c [|c' a]] b; norm_app; discriminate.
  - apply pretty_N_go_dashFree.
    intros [|c a] b; norm_app; discriminate.
Qed.

(** The first dash after a dash-free prefix is found in one way only. *)
Lemma split_at_dash (d1 d2 r1 r2 : string) :
  dashFree d1 -> dashFree d2 ->
  d1 +:+ "-" +:+ r1 = d2 +:+ "-" +:+ r2 -> d1 = d2 ∧ r1 = r2.
Proof.
  revert d2. induction d1 as [|c d1 IH]; intros [|c' d2] H1 H2;
    norm_app.
  - by intros [= ->].
  - intros [= <- _]. by destruct (H2 "" d2).
  - intros [= -> _]. by destruct (H1 "" d1).
  - intros [= -> Hrest]. destruct (IH d2) as [-> ->]; try done.
    + intros a b ->. by apply (H1 (String c' a) b).
    + intros a b ->. by apply (H2 (String c' a) b).
Qed.

(** X4: two Uniswap-liquidity keys are equal exactly when the chain ids
    are equal and the queries agree after trimming and lower-casing, and
    two token-price keys exactly when the chain ids are equal and the
    addresses agree after lower-casing: no two different lookups share an
    entry. *)
Theorem cache_keys_injective (c1 c2 : nat) (q1 q2 a1 a2 : string) :
  (getUniswapLiquidityCacheKey c1 q1 = getUniswapLiquidityCacheKey c2 q2
   <-> c1 = c2 ∧ toLowerCase (trim q1) = toLowerCase (trim q2)) ∧
  (getTokenPriceCacheKey c1 a1 = getTokenPriceCacheKey c2 a2
   <-> c1 = c2 ∧ toLowerCase a1 = toLowerCase a2).
Proof.
  split; split.
  - unfold getUniswapLiquidityCacheKey. intros H. apply string_app_inv_head in H.
    apply split_at_dash in H as [Hc Hq]; try apply pretty_nat_dashFree.
    split; [by apply (inj pretty) | done].
  - by intros [-> Hq]; unfold getUniswapLiquidityCacheKey; rewrite Hq.
  - unfold getTokenPriceCacheKey. intros H. apply string_app_inv_head in H.
    apply split_at_dash in H as [Hc Hq]; try apply pretty_nat_dashFree.
    split; [by apply (inj pretty) | done].
  - by intros [-> Hq]; unfold getTokenPriceCacheKey; rewrite Hq.
Qed.

Lemma toLowerCaseChar_toUpperCaseChar c :
  toLowerCaseChar (toUpperCaseChar c) = toLowerCaseChar c.
Proof. destruct c as [[] [] [] [] [] [] [] []]; reflexivity. Qed.

Lemma isWhiteSpace_toUpperCaseChar c : isWhiteSpace (toUpperCaseChar c) = isWhiteSpace c.
Proof. destruct c as [[] [] [] [] [] [] [] []]; reflexivity. Qed.

Lemma toLowerCase_toUpperCase s : toLowerCase (toUpperCase s) = toLowerCase s.
Proof.
  induction s as [|c s IH]; simpl; [done|].
  by rewrite toLowerCaseChar_toUpperCaseChar, IH.
Qed.

Lemma trimStart_toUpperCase s : trimStart (toUpperCase s) = toUpperCase (trimStart s).
Proof.
  induction s as [|c s IH]; simpl; [done|].
  rewrite isWhiteSpace_toUpperCaseChar. by destruct (isWhiteSpace c).
Qed.

Lemma trimEnd_toUpperCase s : trimEnd (toUpperCase s) = toUpperCase (trimEnd s).
Proof.
  induction s as [|c s IH]; simpl; [done|].
  rewrite IH, isWhiteSpace_toUpperCaseChar.
  destruct (trimEnd s); simpl; [|done]. by destruct (isWhiteSpace c).
Qed.

Lemma trimStart_blank_app ws q : trimStart ws = "" -> trimStart (ws +:+ q) = trimStart q.
Proof.
  induction ws as [|c ws IH]; norm_app; [done|]. cbn [trimStart].
  destruct (isWhiteSpace c); [done | discriminate].
Qed.

Lemma trimEnd_blank ws : trimStart ws = "" -> trimEnd ws = "".
Proof.
  induction ws as [|c ws IH]; simpl; [done|].
  destruct (isWhiteSpace c); [|discriminate]. intros H. by rewrite IH.
Qed.

Lemma trimEnd_app_blank q ws : trimStart ws = "" -> trimEnd (q +:+ ws) = trimEnd q.
Proof.
  intros Hws. induction q as [|c q IH]; norm_app; [by apply trimEnd_blank|].
  cbn [trimEnd]. by rewrite IH.
Qed.

Lemma trimStart_head s c r : trimStart s = String c r -> isWhiteSpace c = false.
Proof.
  induction s as [|c' s IH]; simpl; [done|].
  destruct (isWhiteSpace c') eqn:Hc; [done|]. by intros [= <- _].
Qed.

Lemma trim_blank ws : trim ws = "" -> trimStart ws = "".
Proof.
  unfold trim. destruct (trimStart ws) as [|c r] eqn:Hs; [done|].
  apply trimStart_head in Hs. simpl. rewrite Hs. by destruct (trimEnd r).
Qed.

Lemma trim_padding ws1 q ws2 :
  trim ws1 = "" -> trim ws2 = "" -> trim (ws1 +:+ q +:+ ws2) = trim q.
Proof.
  intros H1%trim_blank H2%trim_blank. unfold trim.
  rewrite trimStart_blank_app by done.
  induction q as [|c q IH]; norm_app.
  - by rewrite H2.
  - cbn [trimStart]. destruct (isWhiteSpace c); [done|].
    rewrite <- string_app_cons. by rewrite trimEnd_app_blank.
Qed.

(** X5: for a query and an address made of ASCII characters, the query
    in upper case, or padded with white space, gets the key of the plain
    query, and the address in upper case (a checksummed hex address, say)
    the key of the plain address. *)
Theorem cache_keys_normalise (c : nat) (q ws1 ws2 a : string) :
  isAsciiString q = true -> isAsciiString a = true ->
  trim ws1 = "" -> trim ws2 = "" ->
  getUniswapLiquidityCacheKey c (toUpperCase q) = getUniswapLiquidityCacheKey c q ∧
  getUniswapLiquidityCacheKey c (ws1 +:+ q +:+ ws2) = getUniswapLiquidityCacheKey c q ∧
  getTokenPriceCacheKey c (toUpperCase a) = getTokenPriceCacheKey c a.
Proof.
  intros _ _ H1 H2. unfold getUniswapLiquidityCacheKey, getTokenPriceCacheKey.
  rewrite trim_padding by done. unfold trim.
  by rewrite trimStart_toUpperCase, trimEnd_toUpperCase, !toLowerCase_toUpperCase.
Qed.

Lemma cache_keys_normalise_witness :
  getUniswapLiquidityCacheKey 1 ("  " +:+ "USDC" +:+ " ")
    = getUniswapLiquidityCacheKey 1 "USDC" ∧
  getTokenPriceCacheKey 137 (toUpperCase "0xa0b8") = getTokenPriceCacheKey 137 "0xa0b8".
Proof.
  destruct (cache_keys_normalise 1 "USDC" "  " " " "") as (_ & H2 & _); [done..|].
  destruct (cache_keys_normalise 137 "" "" "" "0xa0b8") as (_ & _ & H3); [done..|].
  split; [exact H2 | exact H3].
Defined.

Example getUniswapLiquidityCacheKey_example :
  getUniswapLiquidityCacheKey 1 "  USDC " = "uniswap-liquidity-1-usdc".
Proof. vm_compute. reflexivity. Qed.

(** X6: the three key generators never produce the same key, so Uniswap,
    Solana and price entries cannot overwrite one another. *)
Theorem cache_key_families_disjoint (c1 c2 : nat) (query address : string)
    (addresses : Ref) (heap heap' : gmap Ref (list string)) (key : string) :
  getSolanaTokenDataCacheKey addresses heap = Some (key, heap') ->
  key ≠ getUniswapLiquidityCacheKey c1 query ∧
  key ≠ getTokenPriceCacheKey c2 address ∧
  getUniswapLiquidityCacheKey c1 query ≠ getTokenPriceCacheKey c2 address.
Proof.
  intros Hkey.
  assert (∃ rest, key = String "s" rest) as [rest ->].
  { destruct (heap !! addresses) as [elems|] eqn:Ha.
    - destruct (getSolanaTokenDataCacheKey_spec addresses heap elems Ha) as (r & _ & Hspec).
      rewrite Hspec in Hkey. injection Hkey as <- _. simpl. eauto.
    - unfold getSolanaTokenDataCacheKey, spread in Hkey. by rewrite Ha in Hkey. }
  unfold getUniswapLiquidityCacheKey, getTokenPriceCacheKey. simpl.
  repeat split; discriminate.
Qed.

Lemma cache_key_families_disjoint_witness :
  "solana-token-data-So11" ≠ getUniswapLiquidityCacheKey 1 "So11" ∧
  "solana-token-data-So11" ≠ getTokenPriceCacheKey 101 "So11" ∧
  getUniswapLiquidityCacheKey 1 "So11" ≠ getTokenPriceCacheKey 101 "So11".
Proof.
  apply (cache_key_families_disjoint 1 101 "So11" "So11" 1%positive
           {[ 1%positive := ["So11"] ]}
           (<[2%positive := ["So11"]]> {[ 1%positive := ["So11"] ]})).
  vm_compute. reflexivity.
Defined.

End CacheExtra.

(** ** Token lists: the shape of every retry run *)

Module TokenListValidationExtra.
Import TokenListValidation TokenListValidationFacts.

Lemma fetchCount_app tr1 tr2 : fetchCount (tr1 ++ tr2) = (fetchCount tr1 + fetchCount tr2)%nat.
Proof. unfold fetchCount. by rewrite filter_app, length_app. Qed.

Lemma sleeps_app tr1 tr2 : sleeps (tr1 ++ tr2) = sleeps tr1 ++ sleeps tr2.
Proof. unfold sleeps. apply omap_app. Qed.

Lemma failedAttempts_S url a k :
  failedAttempts url a (S k)
  = [EvFetch url; EvSleep (backoffDelay a)] ++ failedAttempts url (S a) k.
Proof. reflexivity. Qed.

Lemma fetchCount_failedAttempts url a k : fetchCount (failedAttempts url a k) = k.
Proof.
  revert a. induction k as [|k IH]; intros a; [done|].
  rewrite failedAttempts_S, fetchCount_app, IH. reflexivity.
Qed.

Lemma fetchCount_last url : fetchCount [EvFetch url] = 1%nat.
Proof. reflexivity. Qed.

Lemma sleeps_failedAttempts url a k :
  sleeps (failedAttempts url a k) = map backoffDelay (seq a k).
Proof.
  revert a. induction k as [|k IH]; intros a; [done|].
  rewrite failedAttempts_S, sleeps_app, IH. reflexivity.
Qed.

Lemma failedAttempts_events url a k e :
  e ∈ failedAttempts url a k ++ [EvFetch url] ->
  e = EvFetch url ∨ ∃ attempt, e = EvSleep (backoffDelay attempt).
Proof.
  revert a. induction k as [|k IH]; intros a.
  - intros H. apply list_elem_of_singleton in H as ->. by left.
  - rewrite failedAttempts_S, <- app_assoc. intros H.
    apply elem_of_app in H as [H|H]; [|by eapply IH].
    apply elem_of_cons in H as [->|H]; [by left|].
    apply list_elem_of_singleton in H as ->. right; eauto.
Qed.

(** The table, with the cap the [||] puts on it. *)
Lemma backoffDelay_table attempt :
  backoffDelay attempt = match attempt with 0%nat => 1000 | 1%nat => 2000 | _ => 4000 end.
Proof. by destruct attempt as [|[|[|attempt]]]. Qed.

Section WithNetwork.
Variable network : list Event -> string -> Result Response.

Lemma attemptOnce_run url tr :
  attemptOnce network url tr = ((attemptOnce network url tr).1, tr ++ [EvFetch url]).
Proof. rewrite (surjective_pairing (attemptOnce network url tr)) at 1. reflexivity. Qed.

(** An attempt that succeeds has counted the tokens. *)
Lemma attemptOnce_ok_count url tr count :
  (attemptOnce network url tr).1 = Ok count -> ∃ c, count = Some c.
Proof.
  unfold attemptOnce, fetchTokenListWithTimeout.
  destruct (network tr url) as [response|e]; simpl; [|done].
  destruct (ok response); simpl; [|done].
  destruct (json response) as [data|e]; simpl; [|done].
  destruct (validateTokenList data) as [[]|e] eqn:Hvalid; simpl; try done.
  apply validateTokenList_true_iff in Hvalid
    as (props & name & elems & -> & _ & _ & Htokens & _).
  intros [= <-]. simpl. rewrite Htokens. eauto.
Qed.

Lemma retryLoop_cons url n attempt rest tr :
  retryLoop network url n (attempt :: rest) tr
  = match attemptOnce network url tr with
    | (Ok count, tr1) => (mkResult url true None count, tr1)
    | (Throw e, tr1) =>
        if (attempt =? n)%nat
        then (mkResult url false (Some (errorMessageOf e)) None, tr1)
        else retryLoop network url n rest (tr1 ++ [EvSleep (backoffDelay attempt)])
    end.
Proof. reflexivity. Qed.

(** The result an attempt that ends the loop turns into. *)
Local Abbreviation resultOf url outcome :=
  (match outcome with
   | Ok count => mkResult url true None count
   | Throw e => mkResult url false (Some (errorMessageOf e)) None
   end).

(** Every run of the loop is some number [k] of failed attempts, each
    followed by its sleep, and one last attempt that decides the result;
    the last attempt can only fail when the retries are used up. *)
Lemma retryLoop_shape url n m a tr :
  (a + m = n)%nat ->
  ∃ k, (k ≤ m)%nat ∧
    retryLoop network url n (seq a (S m)) tr
      = (resultOf url (attemptOnce network url (tr ++ failedAttempts url a k)).1,
         tr ++ failedAttempts url a k ++ [EvFetch url]) ∧
    (∀ e, (attemptOnce network url (tr ++ failedAttempts url a k)).1 = Throw e -> k = m) ∧
    (∀ j, (j < k)%nat ->
          ∃ e, (attemptOnce network url (tr ++ failedAttempts url a j)).1 = Throw e).
Proof.
  revert a tr. induction m as [|m IH]; intros a tr Ham.
  - exists 0%nat. split; [done|]. cbn [seq retryLoop failedAttempts flat_map].
    rewrite app_nil_r, attemptOnce_run.
    destruct ((attemptOnce network url tr).1) as [count|e] eqn:Hfirst.
    + repeat split; try done; lia.
    + assert (a = n) as -> by lia. rewrite Nat.eqb_refl.
      repeat split; try done; lia.
  - change (seq a (S (S m))) with (a :: seq (S a) (S m)).
    rewrite retryLoop_cons, attemptOnce_run.
    destruct ((attemptOnce network url tr).1) as [count|e] eqn:Hfirst.
    + exists 0%nat. cbn [failedAttempts seq flat_map]. rewrite app_nil_r, Hfirst.
      repeat split; try done; lia.
    + assert ((a =? n)%nat = false) as -> by (apply Nat.eqb_neq; lia).
      set (tr' := (tr ++ [EvFetch url]) ++ [EvSleep (backoffDelay a)]).
      destruct (IH (S a) tr') as (k & Hk & Hrun & Hlast & Hfailed); [lia|].
      assert (∀ j, tr' ++ failedAttempts url (S a) j
                   = tr ++ failedAttempts url a (S j)) as Htr.
      { intros j. subst tr'. rewrite failedAttempts_S, <- !app_assoc. reflexivity. }
      exists (S k). split; [lia|].
      rewrite <- Htr. split; [|split].
      * rewrite Hrun. f_equal.
        rewrite (app_assoc tr'), Htr, <- app_assoc. reflexivity.
      * intros e' He'. f_equal. by eapply Hlast.
      * intros [|j] Hj.
        { cbn [failedAttempts seq flat_map]. rewrite app_nil_r. eauto. }
        rewrite <- Htr. apply Hfailed. lia.
Qed.

End WithNetwork.

Lemma retry_run_events network url maxRetries tr :
  ∃ k, (k ≤ maxRetries)%nat ∧
    (fetchTokenListWithRetry network url maxRetries tr).2
      = tr ++ failedAttempts url 0 k ++ [EvFetch url].
Proof.
  unfold fetchTokenListWithRetry.
  destruct (retryLoop_shape network url maxRetries maxRetries 0 tr)
    as (k & Hk & Hrun & _); [lia|].
  exists k. by rewrite Hrun.
Qed.

Lemma retry_fetches_only_url network url maxRetries tr other :
  EvFetch other ∈ drop (length tr) (fetchTokenListWithRetry network url maxRetries tr).2 ->
  other = url.
Proof.
  destruct (retry_run_events network url maxRetries tr) as (k & _ & ->).
  rewrite drop_app_length. intros Hin.
  apply failedAttempts_events in Hin as [[= ->]|[attempt Hs]]; done.
Qed.

Lemma retry_result_url network url maxRetries tr :
  TokenListValidation.url (fetchTokenListWithRetry network url maxRetries tr).1 = url.
Proof.
  unfold fetchTokenListWithRetry.
  destruct (retryLoop_shape network url maxRetries maxRetries 0 tr)
    as (k & _ & Hrun & _); [lia|].
  rewrite Hrun. cbn [fst].
  by destruct ((attemptOnce network url (tr ++ failedAttempts url 0 k)).1).
Qed.

(** X7: whatever the network does, a run of [fetchTokenListWithRetry] is
    [k <= maxRetries] failed attempts, each followed by its backoff sleep,
    and then one last attempt: [k + 1] requests, all for the given URL,
    and the sleeps are the first [k] delays of the table.  An invalid
    result means that all [maxRetries] retries were used. *)
Theorem fetchTokenListWithRetry_run_shape network url maxRetries tr :
  let run := fetchTokenListWithRetry network url maxRetries tr in
  let new := drop (length tr) run.2 in
  ∃ k, (k ≤ maxRetries)%nat ∧
    run.2 = tr ++ failedAttempts url 0 k ++ [EvFetch url] ∧
    fetchCount new = S k ∧
    sleeps new = map backoffDelay (seq 0 k) ∧
    (isValid run.1 = false -> k = maxRetries).
Proof.
  intros run new. subst run new. unfold fetchTokenListWithRetry.
  destruct (retryLoop_shape network url maxRetries maxRetries 0 tr)
    as (k & Hk & Hrun & Hlast & _); [lia|].
  exists k. split; [done|]. rewrite Hrun. cbn [fst snd].
  rewrite drop_app_length. split; [done|]. split; [|split].
  - rewrite fetchCount_app, fetchCount_failedAttempts, fetchCount_last. lia.
  - rewrite sleeps_app, sleeps_failedAttempts. simpl. by rewrite app_nil_r.
  - destruct ((attemptOnce network url (tr ++ failedAttempts url 0 k)).1) as [count|e] eqn:Hl;
      [done|]. intros _. by eapply Hlast.
Qed.

(** X8: [validateTokenListUrl] makes between one and four requests, never
    to another URL than the one given, and sleeps at most 7 s in total,
    whatever the network does. *)
Theorem validateTokenListUrl_bounded network url tr :
  let new := drop (length tr) (validateTokenListUrl network url tr).2 in
  (1 ≤ fetchCount new ≤ 4)%nat ∧
  foldr Z.add 0 (sleeps new) ≤ 7000 ∧
  (∀ other, EvFetch other ∈ new -> other = url).
Proof.
  intros new. subst new. unfold validateTokenListUrl.
  split; [|split].
  - destruct (retry_run_events network url 3 tr) as (k & Hk & ->).
    rewrite drop_app_length, fetchCount_app, fetchCount_failedAttempts, fetchCount_last. lia.
  - destruct (retry_run_events network url 3 tr) as (k & Hk & ->).
    rewrite drop_app_length, sleeps_app, sleeps_failedAttempts. simpl. rewrite app_nil_r.
    destruct k as [|[|[|[|k]]]]; simpl; rewrite ?backoffDelay_table; lia.
  - intros other. apply retry_fetches_only_url.
Qed.

(** X9: on a URL that never validates, [fetchTokenListWithRetry] uses all
    its retries for any [maxRetries]: [maxRetries + 1] requests, sleeps
    of 1 s, 2 s and then 4 s each. *)
Theorem fetchTokenListWithRetry_exhausts network url maxRetries tr :
  alwaysFails network url ->
  let run := fetchTokenListWithRetry network url maxRetries tr in
  let new := drop (length tr) run.2 in
  isValid run.1 = false ∧
  fetchCount new = S maxRetries ∧
  sleeps new = map (λ attempt, match attempt with 0%nat => 1000 | 1%nat => 2000 | _ => 4000 end)
                   (seq 0 maxRetries).
Proof.
  intros Hfail run new. subst run new. unfold fetchTokenListWithRetry.
  destruct (retryLoop_shape network url maxRetries maxRetries 0 tr)
    as (k & Hk & Hrun & Hlast & _); [lia|].
  destruct (Hfail (tr ++ failedAttempts url 0 k)) as [e He].
  pose proof (Hlast e He) as ->. rewrite Hrun, He. cbn [fst snd].
  rewrite drop_app_length. split; [done|]. split.
  - rewrite fetchCount_app, fetchCount_failedAttempts, fetchCount_last. lia.
  - rewrite sleeps_app, sleeps_failedAttempts. simpl. rewrite app_nil_r.
    apply map_ext. intros attempt. apply backoffDelay_table.
Qed.

Lemma fetchTokenListWithRetry_exhausts_witness :
  let network : list Event -> string -> Result Response :=
    λ _ _, Throw (JsError "Failed to fetch") in
  let run := fetchTokenListWithRetry network vaultoFallback 5 [] in
  isValid run.1 = false ∧ fetchCount run.2 = 6%nat ∧
  sleeps run.2 = [1000; 2000; 4000; 4000; 4000].
Proof.
  intros network run.
  apply (fetchTokenListWithRetry_exhausts network vaultoFallback 5 []).
  intros tr. eexists. reflexivity.
Defined.

(** X10: a transient outage is ridden out: if the URL fails for the next
    [j <= maxRetries] requests and validates on the one after, the result
    is valid with that attempt's token count, after [j + 1] requests and
    the first [j] sleeps of the table. *)
Theorem fetchTokenListWithRetry_recovers network url maxRetries tr j count :
  (j ≤ maxRetries)%nat ->
  (∀ tr', (fetchCount tr' < fetchCount tr + j)%nat ->
          ∃ e, (attemptOnce network url tr').1 = Throw e) ->
  (∀ tr', fetchCount tr' = (fetchCount tr + j)%nat ->
          (attemptOnce network url tr').1 = Ok count) ->
  fetchTokenListWithRetry network url maxRetries tr
  = (mkResult url true None count, tr ++ failedAttempts url 0 j ++ [EvFetch url]).
Proof.
  intros Hj Hdown Hup. unfold fetchTokenListWithRetry.
  destruct (retryLoop_shape network url maxRetries maxRetries 0 tr)
    as (k & Hk & Hrun & Hlast & Hfailed); [lia|].
  assert (∀ i, fetchCount (tr ++ failedAttempts url 0 i) = (fetchCount tr + i)%nat) as Hcount.
  { intros i. by rewrite fetchCount_app, fetchCount_failedAttempts. }
  assert (k = j) as ->.
  { destruct (decide (k < j)%nat) as [Hlt|Hge].
    - destruct (Hdown (tr ++ failedAttempts url 0 k)) as [e He]; [rewrite Hcount; lia|].
      pose proof (Hlast e He). lia.
    - destruct (decide (j < k)%nat) as [Hgt|]; [|lia].
      destruct (Hfailed j Hgt) as [e He].
      rewrite Hup in He; [done | apply Hcount]. }
  rewrite Hrun, Hup; [done | apply Hcount].
Qed.

Lemma fetchTokenListWithRetry_recovers_witness :
  let good : gmap string JSValue := {[ "name" := JString "Vaulto"; "tokens" := JArray [] ]} in
  let network : list Event -> string -> Result Response :=
    λ tr _, if (fetchCount tr <? 2)%nat
            then Throw (JsError "Failed to fetch")
            else Ok (mkResponse true 200 "OK" (Ok (JObject good))) in
  fetchTokenListWithRetry network vaultoPrimary 3 []
  = (mkResult vaultoPrimary true None (Some 0%nat),
     [EvFetch vaultoPrimary; EvSleep 1000; EvFetch vaultoPrimary; EvSleep 2000;
      EvFetch vaultoPrimary]).
Proof.
  intros good network.
  apply (fetchTokenListWithRetry_recovers network vaultoPrimary 3 [] 2 (Some 0%nat)).
  - lia.
  - intros tr' Hlt. exists (JsError "Failed to fetch").
    unfold attemptOnce, fetchTokenListWithTimeout, network.
    assert ((fetchCount tr' <? 2)%nat = true) as -> by (apply Nat.ltb_lt; simpl in Hlt; lia).
    reflexivity.
  - intros tr' Heq.
    unfold attemptOnce, fetchTokenListWithTimeout, network.
    assert ((fetchCount tr' <? 2)%nat = false) as -> by (apply Nat.ltb_ge; simpl in Heq; lia).
    vm_compute. reflexivity.
Defined.

(** X11: the result always names the URL that was asked for, and is
    either valid with a token count and no error, or invalid with an
    error message and no token count. *)
Theorem fetchTokenListWithRetry_result_consistent network url maxRetries tr :
  let result := (fetchTokenListWithRetry network url maxRetries tr).1 in
  TokenListValidation.url result = url ∧
  if isValid result
  then error result = None ∧ is_Some (tokenCount result)
  else is_Some (error result) ∧ tokenCount result = None.
Proof.
  intros result. subst result. unfold fetchTokenListWithRetry.
  destruct (retryLoop_shape network url maxRetries maxRetries 0 tr)
    as (k & _ & Hrun & _); [lia|].
  rewrite Hrun. cbn [fst].
  destruct ((attemptOnce network url (tr ++ failedAttempts url 0 k)).1) as [count|e] eqn:Hl.
  - apply attemptOnce_ok_count in Hl as [c ->]. simpl. eauto.
  - simpl. eauto.
Qed.

(** X12: [getValidatedTokenListUrls] returns exactly one URL: the primary
    one when it validates, and then without a single request to the
    fallback; the fallback one otherwise, whether it validates or not. *)
Theorem getValidatedTokenListUrls_one_url network primaryUrl fallbackUrl tr :
  let primary := validateTokenListUrl network primaryUrl tr in
  let out := getValidatedTokenListUrls network primaryUrl fallbackUrl tr in
  if isValid primary.1
  then out = ([primaryUrl], primary.2) ∧
       (fallbackUrl ≠ primaryUrl -> EvFetch fallbackUrl ∉ drop (length tr) out.2)
  else out.1 = [fallbackUrl].
Proof.
  intros primary out. subst primary out. unfold getValidatedTokenListUrls.
  pose proof (retry_fetches_only_url network primaryUrl 3 tr fallbackUrl) as Honly.
  fold (validateTokenListUrl network primaryUrl tr) in Honly.
  destruct (validateTokenListUrl network primaryUrl tr) as [primaryResult tr1].
  cbn [fst snd] in *. destruct (isValid primaryResult).
  - split; [done|]. intros Hne Hin. cbn [snd] in Hin. by apply Honly in Hin.
  - destruct (validateTokenListUrl network fallbackUrl tr1) as [fallbackResult tr2].
    by destruct (isValid fallbackResult).
Qed.

End TokenListValidationExtra.

(** ** The stock percentage-change route: when it succeeds *)

Module StockPctChangeExtra.
Import StockPctChange StockPctChangeFacts.

Section Route.
Context {Token : Type}.
Variable getTokenMetadata : string -> Result (option Token).
Variable isTokenizedStock : Token -> Result bool.
Variable getStockTicker : Token -> Result (option string).
Variable importYahooFinance : Result (string -> Result (option Quote)).

(** X14: the route answers 200 exactly when the address is given, the
    token is found, is a tokenized stock with a non-empty ticker, the
    quote module loads and returns a quote; the body then carries that
    ticker and the first of [regularMarketChangePercent], [changePercent]
    that is neither missing, zero nor [NaN], or else 0. *)
Theorem GET_success_iff (address : string) (response : HttpResponse) :
  GET getTokenMetadata isTokenizedStock getStockTicker importYahooFinance address
    = Ok response ∧ status response = 200%nat
  <->
  ∃ token ticker yahooFinance quote,
    address ≠ "" ∧
    getTokenMetadata address = Ok (Some token) ∧
    isTokenizedStock token = Ok true ∧
    getStockTicker token = Ok (Some ticker) ∧ ticker ≠ "" ∧
    importYahooFinance = Ok yahooFinance ∧
    yahooFinance ticker = Ok (Some quote) ∧
    response =
      mkHttpResponse 200
        {[ "ticker" := JString ticker;
           "priceChangePercent" :=
             JNumber (orZero (orNumber (regularMarketChangePercent quote)
                                       (changePercent quote))) ]}
        [("Cache-Control", "public, s-maxage=60, stale-while-revalidate=120")].
Proof.
  split.
  - unfold GET. intros [Hrun Hstatus].
    destruct address as [|c0 address]; simpl in Hrun.
    { injection Hrun as <-. discriminate. }
    destruct (getTokenMetadata (String c0 address)) as [[token|]|e] eqn:Hmeta; simpl in Hrun;
      try (injection Hrun as <-; discriminate).
    destruct (isTokenizedStock token) as [[]|e] eqn:Hstock; simpl in Hrun;
      try (injection Hrun as <-; discriminate).
    destruct (getStockTicker token) as [[[|c ticker]|]|e] eqn:Hticker; simpl in Hrun;
      try (injection Hrun as <-; discriminate).
    destruct importYahooFinance as [yahooFinance|importError] eqn:Himport; simpl in Hrun;
      try (injection Hrun as <-; discriminate).
    destruct (yahooFinance (String c ticker)) as [[q|]|yahooError] eqn:Hquote; simpl in Hrun;
      try (injection Hrun as <-; discriminate).
    injection Hrun as <-.
    exists token, (String c ticker), yahooFinance, q. repeat split; done.
  - intros (token & ticker & yahooFinance & q & Haddr & Hmeta & Hstock & Hticker & Hne
            & Himport & Hquote & ->).
    split; [|done]. unfold GET.
    destruct address as [|c0 address]; [done|]. simpl.
    rewrite Hmeta. simpl. rewrite Hstock. simpl. rewrite Hticker. simpl.
    destruct ticker as [|c ticker]; [done|].
    rewrite Himport. simpl. rewrite Hquote. reflexivity.
Qed.

(** X15: the [Cache-Control] header is attached to the 200 answer and to
    no other: an error answer is never marked cacheable. *)
Theorem GET_caches_only_success (address : string) :
  ∃ response,
    GET getTokenMetadata isTokenizedStock getStockTicker importYahooFinance address
      = Ok response ∧
    headers response =
      if (status response =? 200)%nat
      then [("Cache-Control", "public, s-maxage=60, stale-while-revalidate=120")]
      else [].
Proof.
  unfold GET.
  destruct (stringTruthy address); simpl; [|eexists; split; reflexivity].
  destruct (getTokenMetadata address) as [[token|]|e]; simpl;
    try (eexists; split; reflexivity).
  destruct (isTokenizedStock token) as [[]|e]; simpl;
    try (eexists; split; reflexivity).
  destruct (getStockTicker token) as [[[|c ticker]|]|e]; simpl;
    try (eexists; split; reflexivity).
  destruct importYahooFinance as [yahooFinance|importError]; simpl;
    try (eexists; split; reflexivity).
  destruct (yahooFinance (String c ticker)) as [[q|]|yahooError]; simpl;
    eexists; split; reflexivity.
Qed.

End Route.

(** A quote whose regular change is exactly zero is answered with its
    [changePercent]: zero counts as missing. *)
Example GET_zero_change_falls_through :
  GET (Token:=string) (λ a, Ok (Some a)) (λ _, Ok true) (λ _, Ok (Some "NVDA"))
      (Ok (λ _, Ok (Some (mkQuote (Some 0%float) (Some 1.5%float))))) "0xabc"
  = Ok (mkHttpResponse 200
          {[ "ticker" := JString "NVDA"; "priceChangePercent" := JNumber 1.5%float ]}
          [("Cache-Control", "public, s-maxage=60, stale-while-revalidate=120")]).
Proof. reflexivity. Qed.

End StockPctChangeExtra.

(** ** The token details component: what [fetchData] leaves alone *)

Module TokenDetailsClientExtra.
Import TokenDetailsClient TokenDetailsClientFacts.

Local Abbreviation sameTvl := (λ before after : UI, tvlUSD (state after) = tvlUSD (state before)).
Local Abbreviation sameVolume :=
  (λ before after : UI, volumeUSD (state after) = volumeUSD (state before)).

#[local] Instance sameTvl_preorder : PreOrder sameTvl.
Proof. split; [by intros ui | intros a b c H1 H2; congruence]. Qed.

#[local] Instance sameVolume_preorder : PreOrder sameVolume.
Proof. split; [by intros ui | intros a b c H1 H2; congruence]. Qed.

Lemma needsTvl_false r : is_Some (initialTvl r) -> needsTvl r = false.
Proof. intros [v Hv]. unfold needsTvl. apply bool_decide_eq_false. by rewrite Hv. Qed.

Lemma needsVolume_false r : is_Some (initialVolume r) -> needsVolume r = false.
Proof. intros [v Hv]. unfold needsVolume. apply bool_decide_eq_false. by rewrite Hv. Qed.

Lemma shouldStore_false v : shouldStore false v = false.
Proof. reflexivity. Qed.

Ltac guarded_out Hn :=
  match goal with
  | H : shouldStore _ _ = true |- _ =>
      exfalso; rewrite Hn, shouldStore_false in H; discriminate
  | H : _ && gtZero _ = true |- _ =>
      exfalso; rewrite Hn in H; discriminate
  end.

Ltac same_base Hn :=
  first [ (intros ui; reflexivity)
        | apply respects_pureM; [apply _ | apply fetchPriceData_pureM]
        | guarded_out Hn ].

Lemma fetchData_sameTvl svc r : needsTvl r = false -> respects sameTvl (fetchData svc r).
Proof.
  intros Hn.
  unfold fetchData, fetchStock, fetchStockBody, fetchTvlVolume, fetchTvlVolumeBody.
  repeat respects_step ltac:(same_base Hn).
Qed.

Lemma fetchData_sameVolume svc r :
  needsVolume r = false -> respects sameVolume (fetchData svc r).
Proof.
  intros Hn.
  unfold fetchData, fetchStock, fetchStockBody, fetchTvlVolume, fetchTvlVolumeBody.
  repeat respects_step ltac:(same_base Hn).
Qed.

(** X16: a TVL (or volume) that came with the URL is never overwritten by
    [fetchData]; and when both came with the URL, [fetchData] does not
    use the Solana or pool services at all: it runs the same whatever
    they would answer. *)
Theorem fetchData_keeps_url_values svc r ui :
  (is_Some (initialTvl r) -> tvlUSD (state (fetchData svc r ui).2) = tvlUSD (state ui)) ∧
  (is_Some (initialVolume r) ->
   volumeUSD (state (fetchData svc r ui).2) = volumeUSD (state ui)) ∧
  (is_Some (initialTvl r) -> is_Some (initialVolume r) ->
   ∀ solana pools,
     fetchData (mkServices (fetchTokenPriceByAddress svc) (fetchTokenPriceBySymbol svc)
                  (fetchStockData svc) solana pools) r ui
     = fetchData svc r ui).
Proof.
  split; [|split].
  - intros Htvl. by apply fetchData_sameTvl, needsTvl_false.
  - intros Hvol. by apply fetchData_sameVolume, needsVolume_false.
  - intros Htvl%needsTvl_false Hvol%needsVolume_false solana pools.
    destruct svc as [byAddress bySymbol stockSvc solanaSvc poolSvc].
    unfold fetchData, fetchTvlVolume. rewrite Htvl, Hvol. reflexivity.
Qed.

Lemma fetchData_keeps_url_values_witness :
  let svc := mkServices (λ _ _, Ok None) (λ _, Ok None)
               (λ _, Throw (JsError "unused")) (λ _, Throw (JsError "unused"))
               (λ _ _ _, Ok (mkPoolsResult (Some [mkPool (Some 9%float) (Some 9%float)]))) in
  let r := mkRender "0x2d1f" None None 1%float false None
             (Some 1500.5%float) None "TOKEN" initialState in
  let ui := mkUI (mkState None None (Some 1500.5%float) None true None) [] in
  tvlUSD (state (fetchData svc r ui).2) = Some 1500.5%float ∧
  volumeUSD (state (fetchData svc r ui).2) = Some 9%float.
Proof.
  intros svc r ui. split; [|by vm_compute].
  destruct (fetchData_keeps_url_values svc r ui) as (Htvl & _ & _).
  rewrite Htvl; [reflexivity | by eexists].
Defined.

(** X17: for a token that is neither a configured stock with a ticker nor
    Ondo-named, [fetchData] does not use the stock-data service: it runs
    the same whatever that service would answer, and [stockData] keeps
    its value. *)
Theorem fetchData_skips_stock_data svc r ui stockService :
  wantsStockData r = false ->
  fetchData (mkServices (fetchTokenPriceByAddress svc) (fetchTokenPriceBySymbol svc)
               stockService (fetchSolanaTokenData svc) (getPoolsForToken svc)) r ui
  = fetchData svc r ui ∧
  stockData (state (fetchData svc r ui).2) = stockData (state ui).
Proof.
  intros Hwants. split.
  - destruct svc as [byAddress bySymbol stockSvc solanaSvc poolSvc].
    unfold fetchData. rewrite Hwants. reflexivity.
  - revert ui.
    change (respects (λ before after : UI, stockData (state after) = stockData (state before))
              (fetchData svc r)).
    assert (PreOrder (λ before after : UI, stockData (state after) = stockData (state before)))
      as Hpre.
    { split; [by intros ui | intros a b c H1 H2; congruence]. }
    unfold fetchData, fetchTvlVolume, fetchTvlVolumeBody.
    repeat respects_step
      ltac:(first [ (intros ui; reflexivity)
                  | apply respects_pureM; [apply _ | apply fetchPriceData_pureM]
                  | congruence ]).
Qed.

Lemma fetchData_skips_stock_data_witness :
  let svc := mkServices (λ _ _, Ok None) (λ _, Ok None)
               (λ _, Ok (mkStockResponse true (Ok (JString "quote")) (Ok "")))
               (λ _, Throw (JsError "unused"))
               (λ _ _ _, Ok (mkPoolsResult None)) in
  let r := mkRender "0x2d1f" (Some "ETH") None 1%float false None None None "ETH"
             initialState in
  stockData (state (fetchData svc r (mkUI initialState [])).2) = None.
Proof.
  intros svc r.
  destruct (fetchData_skips_stock_data svc r (mkUI initialState []) (fetchStockData svc))
    as [_ H]; [reflexivity | exact H].
Defined.

(** X18: when the price path throws, [fetchData] changes nothing but
    [isLoading] and [error]: price, stock, TVL and volume data loaded
    earlier stay in the state. *)
Theorem fetchData_price_failure_keeps_data svc r ui err :
  priceOutcome svc r = Throw err ->
  state (fetchData svc r ui).2
  = mkState (coingeckoData (state ui)) (stockData (state ui))
      (tvlUSD (state ui)) (volumeUSD (state ui))
      false (Some (messageOr err "Failed to load token data")).
Proof.
  intros Hprice. by rewrite (fetchData_price_throws svc r ui err Hprice).
Qed.

Lemma fetchData_price_failure_keeps_data_witness :
  let svc := mkServices (λ _ _, Throw (JsThrown None)) (λ _, Ok None)
               (λ _, Throw (JsError "unused")) (λ _, Throw (JsError "unused"))
               (λ _ _ _, Throw (JsError "unused")) in
  let r := mkRender "0x2d1f" None None 1%float false None None None "TOKEN" initialState in
  let ui := mkUI (mkState (Some (mkCoinGecko "eth")) None (Some 3%float) None false None) [] in
  state (fetchData svc r ui).2
  = mkState (Some (mkCoinGecko "eth")) None (Some 3%float) None false
      (Some "Failed to load token data").
Proof.
  intros svc r ui.
  apply (fetchData_price_failure_keeps_data svc r ui (JsThrown None)). reflexivity.
Defined.

(** *** What a render computes *)

Lemma orNumber_default (a : option float) (d : float) :
  numberTruthy d = true -> numberTruthy (default d (orNumber a (Some d))) = true.
Proof.
  intros Hd. unfold orNumber. destruct a as [x|]; [|done].
  by destruct (numberTruthy x) eqn:Hx.
Qed.

Lemma orString_default (a : option string) (d : string) :
  d ≠ "" -> default d (orString a (Some d)) ≠ "".
Proof.
  intros Hd. unfold orString. destruct a as [x|]; [|done].
  destruct (stringTruthy x) eqn:Hx; [|done]. simpl. by destruct x.
Qed.

Section Component.
Variable parseFloat : string -> float.
Variable parseInt10 : string -> float.
Variable getTokenMetadata : string -> option TokenInfo.
Variable isTokenizedStock : Token -> bool.
Variable getStockTicker : Token -> option string.

Local Abbreviation rendered :=
  (render parseFloat parseInt10 getTokenMetadata isTokenizedStock getStockTicker).

(** X19: whatever the URL, props and configuration are, and whatever
    [parseInt] and [parseFloat] make of the parameters, a render uses a
    chain id that is neither zero nor [NaN], a non-empty token symbol and
    a non-empty effective symbol, and URL values for TVL and volume that
    are null or above zero. *)
Theorem render_defaults props searchParams s :
  let r := rendered props searchParams s in
  numberTruthy (tokenChainId r) = true ∧
  tokenSymbol r ≠ "" ∧
  effectiveSymbol r ≠ "" ∧
  nullOrPositive (initialTvl r) ∧ nullOrPositive (initialVolume r).
Proof.
  intros r. subst r.
  assert (tokenSymbol (rendered props searchParams s) ≠ "") as Hsym.
  { unfold render. cbn [tokenSymbol]. by apply orString_default. }
  split; [|split; [exact Hsym|split]].
  - unfold render. cbn [tokenChainId]. by apply orNumber_default.
  - unfold effectiveSymbol. by apply orString_default.
  - split; apply parsePositive_positive.
Qed.

(** A chain id parameter that does not parse falls back to the prop. *)
Example render_unparsable_chainId :
  tokenChainId (render (λ _, PrimFloat.nan) (λ _, PrimFloat.nan) (λ _, None) (λ _, false)
                  (λ _, None) (mkProps "0x1" (Some 137%float))
                  (mkSearchParams None None None (Some "abc")) initialState)
  = 137%float.
Proof. reflexivity. Qed.

Lemma reachable_uiInvariant ui :
  reachable parseFloat parseInt10 getTokenMetadata isTokenizedStock getStockTicker ui ->
  uiInvariant ui.
Proof.
  induction 1 as [|ui props searchParams s Hreach IH|ui svc props searchParams s Hreach IH].
  - by split.
  - apply applyInitialValues_keeps; [apply parsePositive_positive .. | exact IH].
  - by apply fetchData_keeps.
Qed.

(** X21: the [> 0] test in front of the TVL and volume rows never hides a
    stored value: once loading is over, a render of any state the
    component can be in shows exactly the stored TVL and volume. *)
Theorem view_shows_stored_values ui r :
  reachable parseFloat parseInt10 getTokenMetadata isTokenizedStock getStockTicker ui ->
  rState r = state ui ->
  isLoading (state ui) = false ->
  ∃ d, view r = TokenDetails d ∧
       tvlShown d = tvlUSD (state ui) ∧ volumeShown d = volumeUSD (state ui).
Proof.
  intros Hreach Hstate Hload.
  destruct (reachable_uiInvariant ui Hreach) as [[Htvl Hvol] _].
  unfold view. rewrite Hstate, Hload. destruct (chartFor r) as [symbol type].
  eexists. split; [reflexivity|]. simpl. unfold shownIfPositive, nullOrPositive in *.
  split.
  - destruct (tvlUSD (state ui)) as [x|]; [by rewrite Htvl | done].
  - destruct (volumeUSD (state ui)) as [x|]; [by rewrite Hvol | done].
Qed.

End Component.

Lemma view_shows_stored_values_witness :
  let parseFloat : string -> float :=
    λ p, if String.eqb p "1500.5" then 1500.5%float else PrimFloat.nan in
  let props := mkProps "0x2d1f" None in
  let searchParams := mkSearchParams (Some "1500.5") None None None in
  let svc := mkServices (λ _ _, Ok None) (λ _, Ok None)
               (λ _, Throw (JsError "unused")) (λ _, Throw (JsError "unused"))
               (λ _ _ _, Ok (mkPoolsResult None)) in
  let r := render parseFloat parseFloat (λ _, None) (λ _, false) (λ _, None)
             props searchParams initialState in
  let ui := (fetchData svc r (applyInitialValues r (mkUI initialState [])).2).2 in
  let r' := render parseFloat parseFloat (λ _, None) (λ _, false) (λ _, None)
              props searchParams (state ui) in
  ∃ d, view r' = TokenDetails d ∧
       tvlShown d = Some 1500.5%float ∧ volumeShown d = None.
Proof.
  intros parseFloat props searchParams svc r ui r'.
  destruct (view_shows_stored_values parseFloat parseFloat (λ _, None) (λ _, false) (λ _, None)
              ui r') as (d & Hview & Htvl & Hvol).
  - apply (reach_fetch_data _ _ _ _ _ _ svc props searchParams initialState).
    apply (reach_initial_values _ _ _ _ _ _ props searchParams initialState).
    apply reach_mount.
  - reflexivity.
  - reflexivity.
  - exists d. split; [exact Hview|]. split; [by rewrite Htvl | by rewrite Hvol].
Defined.

(** X20: in the details the chart and the badge agree in one direction: a
    stock chart always comes with the Tokenized Stock badge, a crypto
    chart shows the effective symbol as it is, and a configured stock
    with a ticker whose symbol is not Ondo-named is charted as
    [NASDAQ:<ticker>]. *)
Theorem view_chart_and_badge r d :
  view r = TokenDetails d ->
  (chartType d = stock -> tokenizedStockBadge d = true) ∧
  (chartType d = crypto -> chartSymbol d = effectiveSymbol r) ∧
  (isOndoSymbol (effectiveSymbol r) = false ->
   ∀ t, isStock r = true -> ticker r = Some t -> t ≠ "" ->
        chartSymbol d = "NASDAQ:" +:+ t ∧ chartType d = stock).
Proof.
  unfold view, chartFor, ondoTickerOf.
  destruct (isLoading (rState r)); [done|].
  destruct (isOndoSymbol (effectiveSymbol r)) eqn:Hondo; simpl.
  - destruct (stringTruthy (toUpperCase (sliceDropLast 2 (effectiveSymbol r)))) eqn:Hslice;
      simpl.
    + intros [= <-]. simpl. rewrite orb_true_r. repeat split; done.
    + destruct (isStock r && optionStringTruthy (ticker r)) eqn:Hcfg; intros [= <-]; simpl;
        rewrite orb_true_r; repeat split; done.
  - destruct (isStock r) eqn:Hstock; simpl.
    + destruct (optionStringTruthy (ticker r)) eqn:Hticker; intros [= <-]; simpl.
      * repeat split; try done.
        match goal with Ht : ticker r = Some _ |- _ => by rewrite Ht end.
      * repeat split; try done;
          match goal with
          | Ht : ticker r = Some ?tk |- _ =>
              rewrite Ht in Hticker; simpl in Hticker; by destruct tk
          end.
    + intros [= <-]. simpl. repeat split; done.
Qed.

Lemma view_chart_and_badge_witness :
  let r := mkRender "0x1" None (Some (mkToken "bNVDA")) 1%float true (Some "NVDA")
             None None "bNVDA" (mkState None None None None false None) in
  ∃ d, view r = TokenDetails d ∧
       chartSymbol d = "NASDAQ:" +:+ "NVDA" ∧ chartType d = stock ∧
       tokenizedStockBadge d = true.
Proof.
  intros r.
  assert (view r = TokenDetails (mkDetails "NASDAQ:NVDA" stock true None None)) as Hview
    by reflexivity.
  destruct (view_chart_and_badge r _ Hview) as (Hbadge & _ & Hcfg).
  destruct (Hcfg eq_refl "NVDA") as [Hsym Htype]; [done..|].
  eexists. split; [exact Hview|]. split; [exact Hsym|]. split; [exact Htype|].
  exact (Hbadge Htype).
Defined.

(** A configured stock without a ticker: the badge is shown over a crypto
    chart. *)
Example badge_without_stock_chart :
  view (mkRender "0x1" None (Some (mkToken "bXYZ")) 1%float true None None None "bXYZ"
          (mkState None None None None false None))
  = TokenDetails (mkDetails "bXYZ" crypto true None None).
Proof. reflexivity. Qed.

(** X22: the loop over the alternative chains never asks again for the
    chain the first request was made on: it runs the same for any two
    price services that agree on all other chains. *)
Theorem tryAlternativeChains_skips_token_chain svc svc' r chains priceData ui :
  (∀ chain address, PrimFloat.eqb chain (tokenChainId r) = false ->
     fetchTokenPriceByAddress svc chain address
     = fetchTokenPriceByAddress svc' chain address) ->
  tryAlternativeChains svc r chains priceData ui
  = tryAlternativeChains svc' r chains priceData ui.
Proof.
  intros Hagree. revert priceData ui.
  induction chains as [|altChainId chains IH]; intros priceData ui; [done|].
  cbn [tryAlternativeChains].
  destruct (PrimFloat.eqb altChainId (tokenChainId r)) eqn:Hsame; simpl; [apply IH|].
  rewrite !run_bind. unfold await. rewrite (Hagree _ _ Hsame).
  destruct (fetchTokenPriceByAddress svc' altChainId (rAddress r)) as [[found|]|e];
    [done | apply IH | done].
Qed.

Lemma tryAlternativeChains_skips_token_chain_witness :
  let pricesOn (answer : Result (option CoinGeckoPriceData)) :=
    mkServices (λ chain _, if PrimFloat.eqb chain 1%float then answer
                           else if PrimFloat.eqb chain 10%float
                                then Ok (Some (mkCoinGecko "op")) else Ok None)
               (λ _, Ok None) (λ _, Throw (JsError "unused"))
               (λ _, Throw (JsError "unused")) (λ _ _ _, Throw (JsError "unused")) in
  let r := mkRender "0x1" None None 1%float false None None None "TOKEN" initialState in
  (tryAlternativeChains (pricesOn (Throw (JsError "down"))) r alternativeChains None
     (mkUI initialState [])).1
  = Ok (Some (mkCoinGecko "op")).
Proof.
  intros pricesOn r.
  rewrite (tryAlternativeChains_skips_token_chain (pricesOn (Throw (JsError "down")))
             (pricesOn (Ok None)) r alternativeChains None (mkUI initialState [])).
  - reflexivity.
  - intros chain address Hne. simpl in *. by rewrite Hne.
Defined.

End TokenDetailsClientExtra.
